(** * EV routing: branch selection along a route

    A shallow embedding of
    [components/functions/filtering/branches_with_el_cars.ts] (the
    [utils/evRouting.ts] module): the haversine distance, the
    route-proximity filter [findNearbyBranchesFromPolyline] and the selection
    pipeline [getBestBranchWithAvailableEV].

    JavaScript numbers are IEEE 754 binary64 values, modelled by Rocq's
    primitive [float]; the three [Map]s of the pipeline are [gmap]s keyed by
    strings; the built-ins of the JavaScript runtime that the module calls
    ([Math.sin], [parseFloat], [Date.parse], [JSON.parse], the polyline
    decoder, ...) are the fields of the record [Runtime].

    The call that the trip planners make
    ([components/functions/merging/merge_trip.ts] and
    [app/api/plan-trip/route.ts]) is the module [MergeTrip]. *)

From Stdlib Require Import ZArith Floats Lia Bool Ascii String.
From stdpp Require Import gmap strings list fin_maps pretty.

Local Open Scope Z_scope.

(** ** JavaScript numbers *)

Module JsNumber.

(** [a > b] on JavaScript numbers is [b < a]: both are false as soon as one
    operand is [NaN]. *)
Definition gt (a b : float) : bool := PrimFloat.ltb b a.

(** [Number.isNaN]. *)
Definition isNaN (x : float) : bool := PrimFloat.is_nan x.

(** The numeric literals of the module. *)
Definition PI : float := 0x1.921fb54442d18p+1%float.   (* Math.PI *)
Definition c0_6 : float := 0x1.3333333333333p-1%float. (* the literal 0.6 *)

(** Equality up to the sign: what the two orders of a subtraction share. *)
Definition eq_abs (x y : float) : Prop := x = y \/ x = (- y)%float.

(** [x === 0] (true of both zeros). *)
Definition is_zero (x : float) : bool := (x =? 0)%float.

End JsNumber.

(** ** JavaScript strings *)

Module JsString.

Local Open Scope string_scope.

(** A character is a code unit below 256.  White space as
    [String.prototype.trim] strips it, among these: TAB, LF, VT, FF, CR,
    SPACE and the no-break space U+00A0. *)
Definition is_ws (c : ascii) : bool :=
  match nat_of_ascii c with
  | 9%nat | 10%nat | 11%nat | 12%nat | 13%nat | 32%nat | 160%nat => true
  | _ => false
  end.

Fixpoint trimStart (s : string) : string :=
  match s with
  | String c s' => if is_ws c then trimStart s' else s
  | EmptyString => EmptyString
  end.

Fixpoint trimEnd (s : string) : string :=
  match s with
  | EmptyString => EmptyString
  | String c s' =>
      let t := trimEnd s' in
      if is_ws c && (t =? "") then "" else String c t
  end.

Definition trim (s : string) : string := trimEnd (trimStart s).

(** [s.startsWith(p)]. *)
Definition startsWith (p s : string) : bool := String.prefix p s.

Definition quote : ascii := ascii_of_nat 39.   (* ' *)
Definition dquote : ascii := ascii_of_nat 34.  (* the double quote *)

(** [cell.replace] of every single quote by a double quote. *)
Fixpoint replace_quotes (s : string) : string :=
  match s with
  | EmptyString => EmptyString
  | String c s' =>
      String (if Ascii.eqb c quote then dquote else c) (replace_quotes s')
  end.

Fixpoint repeat_char (c : ascii) (n : nat) : string :=
  match n with
  | O => EmptyString
  | S n' => String c (repeat_char c n')
  end.

(** [s.padStart(n, c)] for a one-character filler [c]. *)
Definition padStart (n : nat) (c : ascii) (s : string) : string :=
  repeat_char c (n - String.length s) ++ s.

(** [l.includes(x)] on an array of strings. *)
Definition includes (l : list string) (x : string) : bool :=
  existsb (String.eqb x) l.

(** Truthiness of a value of type [string | undefined], and [a || b]. *)
Definition truthy (s : option string) : bool :=
  match s with
  | Some s => negb (s =? "")
  | None => false
  end.

Definition or_else (a b : option string) : option string :=
  if truthy a then a else b.

(** [String(k).padStart(2, "0")]: a two-character field of a date. *)
Definition pad2 (k : Z) : string := padStart 2 "0" (pretty k).

(** A string that starts with a character other than N. *)
Definition not_N_first (s : string) : Prop :=
  exists c r, s = String c r /\ c <> "N"%char.

End JsString.

(** ** The JavaScript runtime

    What the module takes from its environment.  The trigonometric functions
    and [**] are implementation-approximated in ECMAScript, so they are left
    open; [Math.sqrt] is exact and is the primitive [sqrt]. *)

Record Runtime := {
  Math_sin : float -> float;
  Math_cos : float -> float;
  Math_atan2 : float -> float -> float;
  (** [x ** y] *)
  Math_pow : float -> float -> float;
  parseFloat : string -> float;
  (** [JSON.parse] on a cell that holds an array of strings; [None] when it
      throws a [SyntaxError].  A cell that holds any other JSON value (a
      number, [null], an array of numbers, ...) is outside this model: on
      such a cell of a branch row the callback of step 3 raises a
      [TypeError], for every route and threshold. *)
  JSON_parse : string -> option (list string);
  (** [polyline.decode] of [@mapbox/polyline]: pairs [lat, lng]. *)
  polyline_decode : string -> list (float * float);
  (** [Date.parse]: a time value in milliseconds, [None] for [NaN]. *)
  Date_parse : string -> option Z;
  (** [getFullYear], [getMonth] and [getDate] of a valid time value, in the
      local time zone of the runtime. *)
  Date_getFullYear : Z -> Z;
  Date_getMonth : Z -> Z;
  Date_getDate : Z -> Z;
}.

(** ** Data *)

Module Point.
Record t := mk { lat : float; lng : float }.
End Point.

Module BranchRow.
Record t := mk {
  Name : string;
  Lat : string;
  Lng : string;
  cars : option string;
}.
End BranchRow.

Module NearbyBranchResult.
(** [minDistanceLocation] holds [minLoc!]: the assertion is erased at run
    time, so the field is [null] when the scan recorded no point. *)
Record t := mk {
  Name : string;
  distanceToRoute_meters : float;
  minDistanceLocation : option Point.t;
}.
End NearbyBranchResult.

Module CarRow.
Record t := mk {
  id : string;
  type : string;
  range_km : string;
  trips_ids : string;
}.
End CarRow.

Module TripRow.
Record t := mk {
  car_id : string;
  departure_time : option string;
  arrival_time : option string;
}.
End TripRow.

(** A value of [highRangeEvMap]: the row and its parsed trips. *)
Module EvEntry.
Record t := mk { car : CarRow.t; trips : list string }.
End EvEntry.

(** An element of [branchesWithEVs]. *)
Module BranchWithEVs.
Record t := mk {
  branch : string;
  lat : float;
  lng : float;
  distanceToRoute_meters : float;
  minDistanceLocation : option Point.t;
  electric_car_ids : list string;
}.
End BranchWithEVs.

(** An element of [candidates]. *)
Module Candidate.
Record t := mk {
  branch : string;
  lat : float;
  lng : float;
  distanceToRoute_meters : float;
  minDistanceLocation : option Point.t;
  ev_id : string;
  trip_ids : list string;
}.
End Candidate.

(** [{ ...c, distanceToMinLocation_meters, distanceRatio }]. *)
Module BestBranchResult.
Record t := mk {
  candidate : Candidate.t;
  distanceToMinLocation_meters : float;
  distanceRatio : float;
}.
End BestBranchResult.

(** The argument [TIME : Date | string]; a [Date] is its time value. *)
Inductive DateInput :=
  | DateString (s : string)
  | DateObject (tv : option Z).

(** How a call completes. *)
Inductive completion (A : Type) :=
  | Returns (a : A)
  | Throws.
Arguments Returns {A} a.
Arguments Throws {A}.

(** ** The module *)

Section EvRouting.

Context (rt : Runtime).

Import JsNumber JsString.

(** *** Shared helpers *)

(** Convert a CSV cell that looks like ['A','B'] into a list of strings. *)
Definition parseStringArray (cell : option string) : list string :=
  match cell with
  | None => []
  | Some s =>
      if (s =? "")%string then []
      else match JSON_parse rt (replace_quotes s) with
           | Some l => l
           | None => []
           end
  end.

(** [new Date(date)]: its time value. *)
Definition new_Date (date : DateInput) : option Z :=
  match date with
  | DateString s => Date_parse rt s
  | DateObject tv => tv
  end.

(** A number in a template literal or under [String(...)]. *)
Definition String_of (n : option Z) : string :=
  match n with
  | Some z => pretty z
  | None => "NaN"
  end.

(** Format a Date (or ISO string) as YYYY-MM-DD (local timezone). *)
Definition toLocalDate (date : DateInput) : string :=
  let d := new_Date date in
  let year := String_of (Date_getFullYear rt <$> d) in
  let month := String_of ((fun m => m + 1) <$> (Date_getMonth rt <$> d)) in
  let day := String_of (Date_getDate rt <$> d) in
  (year ++ "-" ++ padStart 2 "0" month ++ "-" ++ padStart 2 "0" day)%string.

(** *** 1. Distance formula *)

(** Haversine distance (metres) between two lat/lng points. *)
Definition getDistance (p1 p2 : Point.t) : float :=
  let R := 6371000%float in
  let phi1 := (Point.lat p1 * PI / 180)%float in
  let phi2 := (Point.lat p2 * PI / 180)%float in
  let dphi := ((Point.lat p2 - Point.lat p1) * PI / 180)%float in
  let dlambda := ((Point.lng p2 - Point.lng p1) * PI / 180)%float in
  let a :=
    (Math_pow rt (Math_sin rt (dphi / 2)) 2 +
     Math_cos rt phi1 * Math_cos rt phi2 *
       Math_pow rt (Math_sin rt (dlambda / 2)) 2)%float in
  let c := (2 * Math_atan2 rt (sqrt a) (sqrt (1 - a)))%float in
  (R * c)%float.

(** *** 2. Find nearby branches along a polyline *)

(** The body of the loop over [decoded]; the state is [(minDist, minLoc)]. *)
Definition scanStep (coords : Point.t) (st : float * option Point.t)
    (pt : Point.t) : float * option Point.t :=
  let d := getDistance pt coords in
  if (d <? st.1)%float then (d, Some pt) else st.

Definition scanRoute (decoded : list Point.t) (coords : Point.t)
    : float * option Point.t :=
  fold_left (scanStep coords) decoded (infinity, None).

(** [{ lat: parseFloat(branch.Lat), lng: parseFloat(branch.Lng) }]. *)
Definition branchCoords (branch : BranchRow.t) : Point.t :=
  Point.mk (parseFloat rt (BranchRow.Lat branch))
           (parseFloat rt (BranchRow.Lng branch)).

(** The callback of [branches.map]: [None] is [null]. *)
Definition evalBranch (DISTANCE_THRESHOLD : float) (decoded : list Point.t)
    (startPoint : Point.t) (distStartToEnd : float) (branch : BranchRow.t)
    : option NearbyBranchResult.t :=
  let coords := branchCoords branch in
  if isNaN (Point.lat coords) || isNaN (Point.lng coords) then None
  else
    let distStartToBranch := getDistance startPoint coords in
    if gt distStartToBranch (distStartToEnd * c0_6)%float then None
    else
      let '(minDist, minLoc) := scanRoute decoded coords in
      if gt minDist DISTANCE_THRESHOLD then None
      else Some (NearbyBranchResult.mk (BranchRow.Name branch) minDist minLoc).

Definition decodePath (encoded : string) : list Point.t :=
  map (fun '(lat, lng) => Point.mk lat lng) (polyline_decode rt encoded).

Definition findNearbyBranchesFromPolyline (DISTANCE_THRESHOLD : float)
    (encoded : string) (branches : list BranchRow.t)
    : list NearbyBranchResult.t :=
  let decoded := decodePath encoded in
  if (length decoded <? 2)%nat then []
  else
    match head decoded, last decoded with
    | Some startPoint, Some endPoint =>
        let distStartToEnd := getDistance startPoint endPoint in
        omap (evalBranch DISTANCE_THRESHOLD decoded startPoint distStartToEnd)
             branches
    | _, _ => []
    end.

(** *** 3. Pick best branch with available high-range EV *)

(** [new Map(nearbyBranches.map((b) => [b.Name, b]))]: a later entry
    replaces an earlier one with the same key. *)
Definition nearbyMap_of (nearbyBranches : list NearbyBranchResult.t)
    : gmap string NearbyBranchResult.t :=
  fold_left (fun m b => <[NearbyBranchResult.Name b := b]> m)
    nearbyBranches ∅.

Definition isEvId (id : string) : bool := startsWith "E" (trim id).

Definition hasNearbyEv (nearbyMap : gmap string NearbyBranchResult.t)
    (branch : BranchRow.t) : bool :=
  let carIds := parseStringArray (BranchRow.cars branch) in
  let hasEv := existsb isEvId carIds in
  bool_decide (is_Some (nearbyMap !! BranchRow.Name branch)) && hasEv.

Definition withEVs (nearbyMap : gmap string NearbyBranchResult.t)
    (branch : BranchRow.t) : option BranchWithEVs.t :=
  nearbyInfo ← nearbyMap !! BranchRow.Name branch;
  Some (BranchWithEVs.mk
          (BranchRow.Name branch)
          (parseFloat rt (BranchRow.Lat branch))
          (parseFloat rt (BranchRow.Lng branch))
          (NearbyBranchResult.distanceToRoute_meters nearbyInfo)
          (NearbyBranchResult.minDistanceLocation nearbyInfo)
          (List.filter isEvId (parseStringArray (BranchRow.cars branch)))).

Definition branchesWithEVs_of (nearbyMap : gmap string NearbyBranchResult.t)
    (branches : list BranchRow.t) : list BranchWithEVs.t :=
  omap (withEVs nearbyMap) (List.filter (hasNearbyEv nearbyMap) branches).

Definition isHighRangeEv (RANGE_THRESHOLD : float) (car : CarRow.t) : bool :=
  (CarRow.type car =? "electric")%string &&
  gt (parseFloat rt (CarRow.range_km car)) RANGE_THRESHOLD.

(** [{ ...car, trips: parseStringArray(car.trips_ids) }]. *)
Definition entryOf (car : CarRow.t) : EvEntry.t :=
  EvEntry.mk car (parseStringArray (Some (CarRow.trips_ids car))).

Definition highRangeEvMap_of (RANGE_THRESHOLD : float) (cars : list CarRow.t)
    : gmap string EvEntry.t :=
  fold_left
    (fun m car =>
       if isHighRangeEv RANGE_THRESHOLD car
       then <[trim (CarRow.id car) := entryOf car]> m
       else m)
    cars ∅.

(** The inner callback of step 5: one candidate when the id is indexed. *)
Definition candidateOf (highRangeEvMap : gmap string EvEntry.t)
    (b : BranchWithEVs.t) (ev : string) : option Candidate.t :=
  car ← highRangeEvMap !! trim ev;
  Some (Candidate.mk
          (BranchWithEVs.branch b) (BranchWithEVs.lat b) (BranchWithEVs.lng b)
          (BranchWithEVs.distanceToRoute_meters b)
          (BranchWithEVs.minDistanceLocation b)
          (trim ev) (EvEntry.trips car)).

Definition candidatesOfBranch (highRangeEvMap : gmap string EvEntry.t)
    (b : BranchWithEVs.t) : list Candidate.t :=
  omap (candidateOf highRangeEvMap b) (BranchWithEVs.electric_car_ids b).

Definition candidates_of (highRangeEvMap : gmap string EvEntry.t)
    (branchesWithEVs : list BranchWithEVs.t) : list Candidate.t :=
  flat_map (candidatesOfBranch highRangeEvMap) branchesWithEVs.

(** The callback of [trips.forEach]. *)
Definition bookTrip (bookedMap : gmap string (list string)) (trip : TripRow.t)
    : gmap string (list string) :=
  let id := trim (TripRow.car_id trip) in
  let timeStr :=
    or_else (trim <$> TripRow.departure_time trip)
            (trim <$> TripRow.arrival_time trip) in
  match timeStr with
  | Some ts =>
      if negb (truthy (Some id)) || negb (truthy timeStr) ||
         bool_decide (Date_parse rt ts = None)
      then bookedMap
      else
        let d := toLocalDate (DateString ts) in
        <[id := default [] (bookedMap !! id) ++ [d]]> bookedMap
  | None => bookedMap
  end.

Definition bookedMap_of (trips : list TripRow.t) : gmap string (list string) :=
  fold_left bookTrip trips ∅.

Definition isFree (bookedMap : gmap string (list string)) (desiredDate : string)
    (c : Candidate.t) : bool :=
  negb (includes (default [] (bookedMap !! Candidate.ev_id c)) desiredDate).

(** The callback of [freeCandidates.map]; [None] when [getDistance] reads
    [lat] of a [null] location and throws a [TypeError]. *)
Definition score (c : Candidate.t) : option BestBranchResult.t :=
  minLoc ← Candidate.minDistanceLocation c;
  let distToMin :=
    getDistance (Point.mk (Candidate.lat c) (Candidate.lng c)) minLoc in
  Some (BestBranchResult.mk c distToMin
          (Candidate.distanceToRoute_meters c / distToMin)%float).

(** The callback of [scored.reduce]. *)
Definition pickBest (best cur : BestBranchResult.t) : BestBranchResult.t :=
  if (BestBranchResult.distanceRatio cur <?
      BestBranchResult.distanceRatio best)%float
  then cur else best.

(** Step 7, from the emptiness test on: the selection among the free
    candidates. *)
Definition selectBest (freeCandidates : list Candidate.t)
    : completion (option BestBranchResult.t) :=
  if (length freeCandidates =? 0)%nat then Returns None
  else
    match mapM score freeCandidates with
    | None => Throws
    | Some [] => Throws (* reduce of an empty array; not reached *)
    | Some (first :: rest) => Returns (Some (fold_left pickBest rest first))
    end.

(** The three CSV files are read at the start of the call; their rows are
    the first three arguments here. *)
Definition getBestBranchWithAvailableEV
    (branches : list BranchRow.t) (cars : list CarRow.t)
    (trips : list TripRow.t) (DISTANCE_THRESHOLD RANGE_THRESHOLD : float)
    (TIME : DateInput) (encoded : string)
    : completion (option BestBranchResult.t) :=
  let nearbyBranches :=
    findNearbyBranchesFromPolyline DISTANCE_THRESHOLD encoded branches in
  let nearbyMap := nearbyMap_of nearbyBranches in
  let branchesWithEVs := branchesWithEVs_of nearbyMap branches in
  let highRangeEvMap := highRangeEvMap_of RANGE_THRESHOLD cars in
  let candidates := candidates_of highRangeEvMap branchesWithEVs in
  let bookedMap := bookedMap_of trips in
  let desiredDate := toLocalDate TIME in
  let freeCandidates := List.filter (isFree bookedMap desiredDate) candidates in
  selectBest freeCandidates.

(** The intermediate lists of the call, as functions of its inputs. *)
Definition nearbyMap_for (branches : list BranchRow.t)
    (DISTANCE_THRESHOLD : float) (encoded : string)
    : gmap string NearbyBranchResult.t :=
  nearbyMap_of
    (findNearbyBranchesFromPolyline DISTANCE_THRESHOLD encoded branches).

Definition candidates_for (branches : list BranchRow.t) (cars : list CarRow.t)
    (DISTANCE_THRESHOLD RANGE_THRESHOLD : float) (encoded : string)
    : list Candidate.t :=
  candidates_of (highRangeEvMap_of RANGE_THRESHOLD cars)
    (branchesWithEVs_of (nearbyMap_for branches DISTANCE_THRESHOLD encoded)
       branches).

Definition freeCandidates_for (branches : list BranchRow.t)
    (cars : list CarRow.t) (trips : list TripRow.t)
    (DISTANCE_THRESHOLD RANGE_THRESHOLD : float) (TIME : DateInput)
    (encoded : string) : list Candidate.t :=
  List.filter (isFree (bookedMap_of trips) (toLocalDate TIME))
    (candidates_for branches cars DISTANCE_THRESHOLD RANGE_THRESHOLD encoded).

(** The ids of a branch row that lead to a candidate: electric by their
    prefix and indexed in [highRangeEvMap]. *)
Definition eligibleIds (highRangeEvMap : gmap string EvEntry.t)
    (branch : BranchRow.t) : list string :=
  List.filter
    (fun ev => bool_decide (is_Some (highRangeEvMap !! trim ev)))
    (List.filter isEvId (parseStringArray (BranchRow.cars branch))).

(** What one branch row adds to [candidates]. *)
Definition contribution (nearbyMap : gmap string NearbyBranchResult.t)
    (highRangeEvMap : gmap string EvEntry.t) (branch : BranchRow.t)
    : list Candidate.t :=
  candidates_of highRangeEvMap (branchesWithEVs_of nearbyMap [branch]).

(** *** Predicates used in the statements *)

(** What the symmetry of the distance needs from the runtime: the square
    of the sine does not see the sign of its argument. *)
Definition sin_sq_even : Prop :=
  forall x, Math_pow rt (Math_sin rt (- x)) 2 = Math_pow rt (Math_sin rt x) 2.

(** The state of the scan: the least distance so far and where it was
    measured, or [Infinity] and no point. *)
Definition scan_inv (coords : Point.t) (seen : list Point.t)
    (st : float * option Point.t) : Prop :=
  match st.2 with
  | None => st.1 = infinity
  | Some p =>
      p ∈ seen /\ st.1 = getDistance p coords /\
      (st.1 <? infinity)%float = true
  end /\
  forall q, q ∈ seen -> (getDistance q coords <? st.1)%float = false.

(** The same state, with the place of the recorded point in the path: every
    point before it is strictly farther, or at a distance [NaN]. *)
Definition scan_first (coords : Point.t) (seen : list Point.t)
    (st : float * option Point.t) : Prop :=
  (forall q, q ∈ seen -> (getDistance q coords <? st.1)%float = false) /\
  match st.2 with
  | None => st.1 = infinity
  | Some p =>
      exists pre post,
        seen = pre ++ p :: post /\ st.1 = getDistance p coords /\
        forall q, q ∈ pre ->
          isNaN (getDistance q coords) = true \/
          (st.1 <? getDistance q coords)%float = true
  end.

(** What the distance of a point to itself needs from the runtime, at the
    latitude [lat]: the sine of zero squares to zero, the cosine there is a
    finite number, and [atan2(0, 1)] is zero. *)
Definition exact_at (lat : float) : Prop :=
  Math_pow rt (Math_sin rt 0) 2 = 0%float /\
  is_finite (Math_cos rt (lat * PI / 180) * Math_cos rt (lat * PI / 180))
    = true /\
  Math_atan2 rt 0 1 = 0%float.

(** The bookings of a vehicle on a day, among the trip rows: the rows under
    its (trimmed, non-blank) id whose chosen time parses and falls on that
    local date. *)
Definition bookedOn (trips : list TripRow.t) (id date : string) : Prop :=
  exists trip ts,
    trip ∈ trips /\ trim (TripRow.car_id trip) = id /\ id <> ""%string /\
    or_else (trim <$> TripRow.departure_time trip)
            (trim <$> TripRow.arrival_time trip) = Some ts /\
    ts <> ""%string /\ is_Some (Date_parse rt ts) /\
    toLocalDate (DateString ts) = date.

End EvRouting.

(** ** The outcome of a linear scan for the minimum

    [selected l r]: [r] stands in [l], no element of [l] scores strictly
    below it, and every element before it scores strictly above it or has
    the score [NaN]. *)
Definition selected (l : list BestBranchResult.t) (r : BestBranchResult.t)
    : Prop :=
  exists pre post,
    l = pre ++ r :: post /\
    (forall s, s ∈ l ->
       (BestBranchResult.distanceRatio s <?
        BestBranchResult.distanceRatio r)%float = false) /\
    (forall s, s ∈ pre ->
       JsNumber.isNaN (BestBranchResult.distanceRatio s) = true \/
       (BestBranchResult.distanceRatio r <?
        BestBranchResult.distanceRatio s)%float = true).

(** ** The call of the trip planners

    [components/functions/merging/merge_trip.ts] (step 2 of
    [planTripWithBestBranch]) and [app/api/plan-trip/route.ts] (step 2 of
    [POST]) both call the selection with these two constants and with the
    date of today as a string. *)

Module MergeTrip.

Definition DISTANCE_THRESHOLD : float := 1000%float. (* metres *)
Definition RANGE_THRESHOLD : float := 100%float.     (* km *)

Definition bestBranch (rt : Runtime) (branches : list BranchRow.t)
    (cars : list CarRow.t) (trips : list TripRow.t)
    (today encodedPolyline : string)
    : completion (option BestBranchResult.t) :=
  getBestBranchWithAvailableEV rt branches cars trips DISTANCE_THRESHOLD
    RANGE_THRESHOLD (DateString today) encodedPolyline.

End MergeTrip.

(** ** A concrete runtime

    An executable instance of [Runtime], used to run the module on sample
    data: decimal numerals, arrays of plain strings, the polyline codec,
    ISO dates in a fixed-offset time zone, and polynomial trigonometry. *)

Module Demo.

Local Open Scope string_scope.

(** Polynomial approximations of the trigonometric functions, in a form
    whose sign symmetry is visible. *)
Definition sin (x : float) : float :=
  (x * (1 - x * x / 6 * (1 - x * x / 20)))%float.

Definition cos (x : float) : float :=
  (1 - x * x / 2 * (1 - x * x / 12 * (1 - x * x / 30)))%float.

Definition atan2 (y x : float) : float :=
  let t := (y / x)%float in
  (t * (1 - t * t / 3 * (1 - 3 * t * t / 5)))%float.

Definition pow (x y : float) : float :=
  if (y =? 2)%float then (x * x)%float else nan.

Definition digit (c : ascii) : option Z :=
  let n := Z.of_nat (nat_of_ascii c) in
  if ((48 <=? n) && (n <=? 57))%Z then Some (n - 48) else None.

Definition float_of_Z (z : Z) : float :=
  SF2Prim (binary_normalize prec emax z 0 false).

(** Decimal numerals: the longest prefix [-]ddd[.ddd]; the quotient of two
    exactly represented integers is correctly rounded. *)
Fixpoint parseDigits (s : string) (acc scale : Z) (frac any : bool)
    : option (Z * Z) :=
  match s with
  | String c s' =>
      match digit c with
      | Some d =>
          parseDigits s' (10 * acc + d) (if frac then 10 * scale else scale)
                      frac true
      | None =>
          if Ascii.eqb c "." && negb frac then parseDigits s' acc scale true any
          else if any then Some (acc, scale) else None
      end
  | EmptyString => if any then Some (acc, scale) else None
  end.

Definition parseFloat (s : string) : float :=
  let '(neg, body) :=
    match s with
    | String "-" s' => (true, s')
    | _ => (false, s)
    end in
  match parseDigits body 0 1 false false with
  | Some (m, k) =>
      let v := (float_of_Z m / float_of_Z k)%float in
      if neg then (- v)%float else v
  | None => nan
  end.

(** Arrays of strings without escapes: [ "a" , "b" ]. *)
Inductive jstate := JStart | JItem | JIn (cur : string) | JAfter | JDone.

Fixpoint parseArray (s : string) (st : jstate) (acc : list string)
    : option (list string) :=
  match s with
  | EmptyString => match st with JDone => Some (rev acc) | _ => None end
  | String c s' =>
      match st with
      | JIn cur =>
          if Ascii.eqb c (ascii_of_nat 34)
          then parseArray s' JAfter (cur :: acc)
          else parseArray s' (JIn (cur ++ String c "")) acc
      | _ =>
          if Ascii.eqb c " " then parseArray s' st acc
          else
            match st with
            | JStart =>
                if Ascii.eqb c "[" then parseArray s' JItem acc else None
            | JItem =>
                if Ascii.eqb c (ascii_of_nat 34) then parseArray s' (JIn "") acc
                else if Ascii.eqb c "]" then
                  match acc with [] => parseArray s' JDone acc | _ => None end
                else None
            | JAfter =>
                if Ascii.eqb c "," then parseArray s' JItem acc
                else if Ascii.eqb c "]" then parseArray s' JDone acc
                else None
            | _ => None
            end
      end
  end.

Definition JSON_parse (s : string) : option (list string) :=
  parseArray s JStart [].

(** The polyline codec at precision 1e-5: five-bit groups, least
    significant first, offset by 63; bit 0x20 marks a continuation. *)
Fixpoint decodeValue (s : string) (shift acc : Z) : option (Z * string) :=
  match s with
  | EmptyString => None
  | String c s' =>
      let b := Z.of_nat (nat_of_ascii c) - 63 in
      let acc' := Z.lor acc (Z.shiftl (Z.land b 31) shift) in
      if (32 <=? b)%Z then decodeValue s' (shift + 5) acc'
      else
        Some (if Z.testbit acc' 0 then Z.lnot (Z.shiftr acc' 1)
              else Z.shiftr acc' 1, s')
  end.

Fixpoint decodePairs (fuel : nat) (s : string) (lat lng : Z)
    : list (float * float) :=
  match fuel with
  | O => []
  | S fuel' =>
      match decodeValue s 0 0 with
      | Some (dlat, s1) =>
          match decodeValue s1 0 0 with
          | Some (dlng, s2) =>
              let lat' := lat + dlat in
              let lng' := lng + dlng in
              ((float_of_Z lat' / 100000)%float,
               (float_of_Z lng' / 100000)%float)
                :: decodePairs fuel' s2 lat' lng'
          | None => []
          end
      | None => []
      end
  end.

Definition polyline_decode (s : string) : list (float * float) :=
  decodePairs (String.length s) s 0 0.

(** Dates: the two ISO forms YYYY-MM-DD and YYYY-MM-DDTHH:MM:SSZ, both UTC,
    and the proleptic Gregorian calendar. *)
Fixpoint readDigits (n : nat) (s : string) (acc : Z) : option (Z * string) :=
  match n with
  | O => Some (acc, s)
  | S n' =>
      match s with
      | String c s' => d ← digit c; readDigits n' s' (10 * acc + d)
      | EmptyString => None
      end
  end.

Definition expect (c : ascii) (s : string) : option string :=
  match s with
  | String c' s' => if Ascii.eqb c c' then Some s' else None
  | EmptyString => None
  end.

Definition days_from_civil (y m d : Z) : Z :=
  let y' := if (m <=? 2)%Z then y - 1 else y in
  let era := y' / 400 in
  let yoe := y' - era * 400 in
  let doy := (153 * (if (2 <? m)%Z then m - 3 else m + 9) + 2) / 5 + d - 1 in
  let doe := yoe * 365 + yoe / 4 - yoe / 100 + doy in
  era * 146097 + doe - 719468.

Definition civil_from_days (days : Z) : Z * Z * Z :=
  let z := days + 719468 in
  let era := z / 146097 in
  let doe := z - era * 146097 in
  let yoe := (doe - doe / 1460 + doe / 36524 - doe / 146096) / 365 in
  let doy := doe - (365 * yoe + yoe / 4 - yoe / 100) in
  let mp := (5 * doy + 2) / 153 in
  let d := doy - (153 * mp + 2) / 5 + 1 in
  let m := if (mp <? 10)%Z then mp + 3 else mp - 9 in
  (yoe + era * 400 + (if (m <=? 2)%Z then 1 else 0), m, d).

Definition msPerDay : Z := 86400000.

Definition Date_parse (s : string) : option Z :=
  '(y, s) ← readDigits 4 s 0; s ← expect "-" s;
  '(m, s) ← readDigits 2 s 0; s ← expect "-" s;
  '(d, s) ← readDigits 2 s 0;
  if bool_decide (1 <= m <= 12 /\ 1 <= d <= 31) then
    let day := days_from_civil y m d * msPerDay in
    match s with
    | EmptyString => Some day
    | _ =>
        s ← expect "T" s;
        '(hh, s) ← readDigits 2 s 0; s ← expect ":" s;
        '(mm, s) ← readDigits 2 s 0; s ← expect ":" s;
        '(ss, s) ← readDigits 2 s 0; s ← expect "Z" s;
        match s with
        | EmptyString => Some (day + ((hh * 60 + mm) * 60 + ss) * 1000)
        | _ => None
        end
    end
  else None.

(** The local calendar day of a time value, [tz] minutes east of UTC. *)
Definition localDay (tz : Z) (tv : Z) : Z * Z * Z :=
  civil_from_days ((tv + tz * 60000) / msPerDay).

Definition runtime (tz : Z) : Runtime :=
  Build_Runtime sin cos atan2 pow parseFloat JSON_parse polyline_decode
    Date_parse
    (fun tv => (localDay tz tv).1.1)
    (fun tv => (localDay tz tv).1.2 - 1)
    (fun tv => (localDay tz tv).2).

(** The runtime in UTC. *)
Definition utc : Runtime := runtime 0.

(** Sample data: the route (50,14) -> (50.5,14.5) -> (51,15), one branch
    next to its middle point, one electric car of range 150 km. *)
Definition route : string := "_sdpH_kmtA_t`B_t`B_t`B_t`B".

Definition branchMid : BranchRow.t :=
  BranchRow.mk "Mid" "50.5" "14.50001" (Some "['E1']").

Definition carE1 : CarRow.t := CarRow.mk "E1" "electric" "150" "[]".

Definition tripE1 : TripRow.t :=
  TripRow.mk "E1" (Some "2024-06-01T08:00:00Z") None.

(** More rows: a branch on the middle point of the route itself, one past
    its end, and a second electric car. *)
Definition branchOn : BranchRow.t :=
  BranchRow.mk "On" "50.5" "14.5" (Some "['E2']").

Definition branchFar : BranchRow.t :=
  BranchRow.mk "Far" "51.0" "15.00001" (Some "['E1']").

Definition carE2 : CarRow.t := CarRow.mk "E2" "electric" "200" "[]".

(** A trip row with a blank vehicle id, and a second row under the name of
    [branchMid], on the route. *)
Definition tripNoCar : TripRow.t :=
  TripRow.mk "  " (Some "2024-06-01T08:00:00Z") None.

Definition branchMidTwin : BranchRow.t :=
  BranchRow.mk "Mid" "50.5" "14.5" None.

(** A route of a single point. *)
Definition routeOnePoint : string := "_sdpH_kmtA".

(** The candidate of [branchOn] with [carE2], and its score. *)
Definition candOn : Candidate.t :=
  Candidate.mk "On" 50.5 14.5 0 (Some (Point.mk 50.5 14.5)) "E2" [].

Definition scoredOn : BestBranchResult.t := BestBranchResult.mk candOn 0 nan.

(** A branch row whose latitude is not a numeral, a car that is not
    electric, and two instants of the first of June 2024 (UTC). *)
Definition branchNowhere : BranchRow.t :=
  BranchRow.mk "Nowhere" "north" "14.5" (Some "['E1']").

Definition carG1 : CarRow.t := CarRow.mk "G1" "petrol" "900" "[]".

Definition june1_0800 : Z := 1717228800000.
Definition june1_1000 : Z := 1717236000000.

(** A branch next to the first point of the route, with the second car. *)
Definition branchWest : BranchRow.t :=
  BranchRow.mk "West" "50.0" "14.00001" (Some "['E2']").

End Demo.

(** ** Facts about binary64 arithmetic *)

Module FloatFacts.

Import JsNumber.

Section SpecFloatFacts.

(** Facts about the specification of binary64 ([SpecFloat]), on which the
    primitive operations are defined. *)

Lemma SFcompare_refl x : x <> S754_nan -> SFcompare x x = Some Eq.
Proof.
  destruct x as [[]|[]| |[] m e]; simpl; try congruence;
    intros _; rewrite Z.compare_refl, Pos.compare_cont_refl; reflexivity.
Qed.

Lemma SFcompare_nan_r x : SFcompare x S754_nan = None.
Proof. destruct x; reflexivity. Qed.

Lemma SFcompare_total x y :
  x <> S754_nan -> y <> S754_nan -> exists c, SFcompare x y = Some c.
Proof.
  destruct x, y; simpl; try congruence; eauto.
Qed.

Lemma SFcompare_antisym x y c :
  SFcompare x y = Some c -> SFcompare y x = Some (CompOpp c).
Proof.
  destruct x as [[]|[]| |[] m1 e1], y as [[]|[]| |[] m2 e2]; simpl;
    intros [= <-]; try reflexivity;
    rewrite (Z.compare_antisym e1 e2);
    change (Pos.compare_cont Eq m2 m1) with (Pos.compare m2 m1);
    change (Pos.compare_cont Eq m1 m2) with (Pos.compare m1 m2);
    rewrite (Pos.compare_antisym m1 m2);
    destruct (e1 ?= e2); simpl; try reflexivity;
    destruct (m1 ?= m2)%positive; reflexivity.
Qed.

(** Cases on the comparisons of exponents and of mantissas, each closed by
    linear arithmetic. *)
Local Ltac cmp_cases :=
  repeat match goal with
  | H : context [Pos.compare_cont Eq ?a ?b] |- _ =>
      change (Pos.compare_cont Eq a b) with (Pos.compare a b) in H
  | |- context [Pos.compare_cont Eq ?a ?b] =>
      change (Pos.compare_cont Eq a b) with (Pos.compare a b)
  end;
  repeat match goal with
  | H : context [Z.compare ?a ?b] |- _ =>
      destruct (Z.compare_spec a b); simpl in H; try discriminate
  | H : context [Pos.compare ?a ?b] |- _ =>
      destruct (Pos.compare_spec a b); simpl in H; try discriminate
  end;
  repeat match goal with
  | |- context [Z.compare ?a ?b] =>
      destruct (Z.compare_spec a b); simpl; try lia
  | |- context [Pos.compare ?a ?b] =>
      destruct (Pos.compare_spec a b); simpl; try lia
  end;
  try reflexivity; try discriminate; try lia.

Lemma SFcompare_lt_trans x y z :
  SFcompare x y = Some Lt -> SFcompare y z = Some Lt ->
  SFcompare x z = Some Lt.
Proof.
  destruct x as [[]|[]| |[] m1 e1], y as [[]|[]| |[] m2 e2],
           z as [[]|[]| |[] m3 e3]; simpl; try discriminate;
    try reflexivity; intros H1 H2; f_equal;
    injection H1 as H1; injection H2 as H2; subst; cmp_cases.
Qed.

Lemma SFcompare_eq_lt_trans x y z :
  SFcompare x y = Some Eq -> SFcompare y z = Some Lt ->
  SFcompare x z = Some Lt.
Proof.
  destruct x as [[]|[]| |[] m1 e1], y as [[]|[]| |[] m2 e2],
           z as [[]|[]| |[] m3 e3]; simpl; try discriminate;
    try reflexivity; intros H1 H2; f_equal;
    injection H1 as H1; injection H2 as H2; subst; cmp_cases.
Qed.

Lemma SFcompare_lt_eq_trans x y z :
  SFcompare x y = Some Lt -> SFcompare y z = Some Eq ->
  SFcompare x z = Some Lt.
Proof.
  destruct x as [[]|[]| |[] m1 e1], y as [[]|[]| |[] m2 e2],
           z as [[]|[]| |[] m3 e3]; simpl; try discriminate;
    try reflexivity; intros H1 H2; f_equal;
    injection H1 as H1; injection H2 as H2; subst; cmp_cases.
Qed.

End SpecFloatFacts.

(** *** Comparisons of primitive floats *)

Lemma isNaN_spec x : isNaN x = true <-> Prim2SF x = S754_nan.
Proof.
  unfold isNaN, is_nan. rewrite FloatAxioms.eqb_spec. unfold SFeqb.
  destruct (Prim2SF x) as [[]|[]| |[] m e] eqn:E; simpl;
    rewrite ?Z.compare_refl, ?Pos.compare_cont_refl; simpl;
    split; congruence.
Qed.

Lemma isNaN_false x : isNaN x = false <-> Prim2SF x <> S754_nan.
Proof.
  rewrite <- isNaN_spec. destruct (isNaN x); split; congruence.
Qed.

Lemma ltb_true x y :
  (x <? y)%float = true <-> SFcompare (Prim2SF x) (Prim2SF y) = Some Lt.
Proof.
  rewrite FloatAxioms.ltb_spec. unfold SFltb.
  destruct (SFcompare _ _) as [[]|]; split; congruence.
Qed.

Lemma leb_true x y :
  (x <=? y)%float = true <->
  SFcompare (Prim2SF x) (Prim2SF y) = Some Lt \/
  SFcompare (Prim2SF x) (Prim2SF y) = Some Eq.
Proof.
  rewrite FloatAxioms.leb_spec. unfold SFleb.
  destruct (SFcompare _ _) as [[]|]; split; intros; try tauto;
    try discriminate; destruct H; discriminate.
Qed.

Lemma ltb_not_nan x y :
  (x <? y)%float = true -> isNaN x = false /\ isNaN y = false.
Proof.
  rewrite ltb_true, !isNaN_false. intros H; split; intros E; rewrite E in H.
  - discriminate.
  - rewrite SFcompare_nan_r in H. discriminate.
Qed.

Lemma ltb_irrefl x : (x <? x)%float = false.
Proof.
  destruct (x <? x)%float eqn:E; [|reflexivity].
  pose proof (ltb_not_nan _ _ E) as [Hn _].
  apply ltb_true in E. apply isNaN_false in Hn.
  rewrite (SFcompare_refl _ Hn) in E. discriminate.
Qed.

Lemma ltb_trans x y z :
  (x <? y)%float = true -> (y <? z)%float = true -> (x <? z)%float = true.
Proof. rewrite !ltb_true. apply SFcompare_lt_trans. Qed.

Lemma leb_ltb_trans x y z :
  (x <=? y)%float = true -> (y <? z)%float = true -> (x <? z)%float = true.
Proof.
  rewrite leb_true, !ltb_true. intros [H|H] ?.
  - eapply SFcompare_lt_trans; eauto.
  - eapply SFcompare_eq_lt_trans; eauto.
Qed.

Lemma ltb_leb_trans x y z :
  (x <? y)%float = true -> (y <=? z)%float = true -> (x <? z)%float = true.
Proof.
  rewrite leb_true, !ltb_true. intros ? [H|H].
  - eapply SFcompare_lt_trans; eauto.
  - eapply SFcompare_lt_eq_trans; eauto.
Qed.

Lemma eqb_not_ltb x y : (x =? y)%float = true -> (y <? x)%float = false.
Proof.
  rewrite FloatAxioms.eqb_spec. unfold SFeqb. intros H.
  destruct (y <? x)%float eqn:E; [|reflexivity].
  apply ltb_true in E. apply SFcompare_antisym in E. simpl in E.
  rewrite E in H. discriminate.
Qed.

(** On numbers that are not [NaN] the order is total. *)
Lemma not_ltb_leb x y :
  isNaN x = false -> isNaN y = false ->
  (x <? y)%float = false -> (y <=? x)%float = true.
Proof.
  rewrite !isNaN_false. intros Hx Hy H.
  destruct (SFcompare_total _ _ Hx Hy) as [c Hc].
  apply leb_true. rewrite (SFcompare_antisym _ _ _ Hc).
  destruct c; simpl; auto.
  apply ltb_true in Hc. congruence.
Qed.

(** *** Rounding does not look at the sign *)

Lemma binary_round_aux_opp s m e l :
  SFopp (binary_round_aux prec emax s m e l) =
  binary_round_aux prec emax (negb s) m e l.
Proof.
  unfold binary_round_aux.
  destruct (shr_fexp prec emax m e l) as [mrs' e'].
  destruct (shr_fexp prec emax _ e' loc_Exact) as [mrs'' e''].
  destruct (shr_m mrs''); simpl; try reflexivity.
  destruct (e'' <=? emax - prec); reflexivity.
Qed.

Lemma binary_normalize_opp m e :
  SFopp (binary_normalize prec emax m e false) =
    binary_normalize prec emax (- m) e false \/
  m = 0.
Proof.
  destruct m; simpl; auto; left; unfold binary_round;
  destruct (shl_align _ _ _); apply binary_round_aux_opp.
Qed.

Lemma SFmul_comm x y : SF64mul x y = SF64mul y x.
Proof.
  destruct x as [[]|[]| |[] m1 e1], y as [[]|[]| |[] m2 e2]; simpl;
    try reflexivity;
  rewrite (Pos.mul_comm m1 m2), (Z.add_comm e1 e2); reflexivity.
Qed.

Lemma SFmul_opp_l x y : SF64mul (SFopp x) y = SFopp (SF64mul x y).
Proof.
  destruct x as [sx|sx| |sx m1 e1], y as [sy|sy| |sy m2 e2]; simpl;
    try reflexivity;
  try (destruct sx, sy; reflexivity).
  rewrite binary_round_aux_opp. destruct sx, sy; reflexivity.
Qed.

Lemma SFdiv_opp_l x y : SF64div (SFopp x) y = SFopp (SF64div x y).
Proof.
  destruct x as [sx|sx| |sx m1 e1], y as [sy|sy| |sy m2 e2]; simpl;
    try reflexivity;
  try (destruct sx, sy; reflexivity).
  destruct (SFdiv_core_binary _ _ _ _ _ _) as [[mz ez] lz].
  rewrite binary_round_aux_opp. destruct sx, sy; reflexivity.
Qed.

Lemma SFsub_swap x y :
  SF64sub y x = SF64sub x y \/ SF64sub y x = SFopp (SF64sub x y).
Proof.
  destruct x as [sx|sx| |sx m1 e1], y as [sy|sy| |sy m2 e2]; simpl; auto;
  try (destruct sx, sy; simpl; auto; fail).
  rewrite (Z.min_comm e2 e1).
  set (ez := Z.min e1 e2).
  set (a := cond_Zopp sx _). set (b := cond_Zopp sy _).
  replace (b - a) with (- (a - b)) by lia.
  destruct (binary_normalize_opp (a - b) ez) as [H|H].
  - right. symmetry. exact H.
  - left. rewrite H. reflexivity.
Qed.

(** *** Sign symmetry and commutativity of the primitive operations *)
Lemma mul_comm x y : (x * y)%float = (y * x)%float.
Proof. apply Prim2SF_inj. rewrite !mul_spec. apply SFmul_comm. Qed.

Lemma mul_opp_l x y : (- x * y)%float = (- (x * y))%float.
Proof.
  apply Prim2SF_inj. rewrite mul_spec, !opp_spec, mul_spec. apply SFmul_opp_l.
Qed.

Lemma mul_opp_opp x y : (- x * - y)%float = (x * y)%float.
Proof.
  rewrite mul_opp_l, (mul_comm x (- y)), mul_opp_l, (mul_comm y x).
  apply Prim2SF_inj. rewrite !opp_spec.
  destruct (Prim2SF (x * y)) as [[]|[]| |[] ? ?]; reflexivity.
Qed.

Lemma div_opp_l x y : (- x / y)%float = (- (x / y))%float.
Proof.
  apply Prim2SF_inj. rewrite div_spec, !opp_spec, div_spec. apply SFdiv_opp_l.
Qed.

Lemma sub_swap x y : eq_abs (y - x) (x - y).
Proof.
  destruct (SFsub_swap (Prim2SF x) (Prim2SF y)) as [H|H]; [left|right];
    apply Prim2SF_inj; rewrite ?opp_spec, !sub_spec; exact H.
Qed.

Lemma eq_abs_mul x y c : eq_abs x y -> eq_abs (x * c) (y * c).
Proof. intros [->| ->]; [left|right]; auto using mul_opp_l. Qed.

Lemma eq_abs_div x y c : eq_abs x y -> eq_abs (x / c) (y / c).
Proof. intros [->| ->]; [left|right]; auto using div_opp_l. Qed.

(** *** Division *)

Lemma div_self x :
  is_finite x = true -> is_zero x = false -> (x / x)%float = 1%float.
Proof.
  unfold is_finite, is_nan, is_infinity, is_zero.
  rewrite !FloatAxioms.eqb_spec, abs_spec. intros Hf Hz.
  apply Prim2SF_inj. rewrite div_spec.
  pose proof (Prim2SF_valid x) as Hv.
  destruct (Prim2SF x) as [[]|[]| |s m e]; try discriminate.
  clear Hf Hz Hv.
  unfold SF64div, SFdiv, SFdiv_core_binary.
  replace (Zdigits2 (Z.pos m) + e - (Zdigits2 (Z.pos m) + e)) with 0 by lia.
  replace (e - e) with 0 by lia.
  change (0 - fexp prec emax 0 `min` 0) with 53.
  change (fexp prec emax 0 `min` 0) with (-53).
  cbv beta iota.
  assert (Hd : Z.div_eucl (Z.pos m ≪ 53) (Z.pos m) = (2 ^ 53, 0)).
  { rewrite Z.shiftl_mul_pow2, Z.mul_comm by lia.
    pose proof (Z.div_mul (2 ^ 53) (Z.pos m) ltac:(lia)) as Hq.
    pose proof (Z.mod_mul (2 ^ 53) (Z.pos m) ltac:(lia)) as Hr.
    unfold Z.div in Hq. unfold Z.modulo in Hr.
    destruct (Z.div_eucl (2 ^ 53 * Z.pos m) (Z.pos m)) as [q r].
    congruence. }
  change IntDef.Z.div_eucl with Z.div_eucl. rewrite Hd.
  replace (new_location (Z.pos m) 0) with loc_Exact
    by (unfold new_location; destruct (Z.even _); reflexivity).
  destruct s; reflexivity.
Qed.

Lemma div_pos_zero x : (0 <? x)%float = true -> (x / 0)%float = infinity.
Proof.
  rewrite FloatAxioms.ltb_spec. intros H. apply Prim2SF_inj. rewrite div_spec.
  change (Prim2SF 0) with (S754_zero false) in *.
  change (Prim2SF infinity) with (S754_infinity false).
  destruct (Prim2SF x) as [[]|[]| |[] m e]; try discriminate; reflexivity.
Qed.

Lemma div_zero x : is_zero x = true -> (x / x)%float = nan.
Proof.
  unfold is_zero. rewrite FloatAxioms.eqb_spec. intros H.
  apply Prim2SF_inj. rewrite div_spec.
  change (Prim2SF 0) with (S754_zero false) in H.
  destruct (Prim2SF x) as [[]|[]| |[] m e]; try discriminate; reflexivity.
Qed.

Lemma div_self_cases x : (x / x)%float = 1%float \/ (x / x)%float = nan.
Proof.
  destruct (is_finite x) eqn:Hf; [destruct (is_zero x) eqn:Hz|].
  - right. apply div_zero, Hz.
  - left. apply div_self; assumption.
  - right. apply Prim2SF_inj. rewrite div_spec.
    unfold is_finite, is_nan, is_infinity in Hf.
    rewrite !FloatAxioms.eqb_spec, abs_spec in Hf.
    change (Prim2SF infinity) with (S754_infinity false) in Hf.
    destruct (Prim2SF x) as [[]|[]| |[] m e]; try reflexivity;
      simpl in Hf; unfold SFeqb in Hf; simpl in Hf;
      rewrite ?Z.compare_refl, ?Pos.compare_cont_refl in Hf; discriminate.
Qed.

Lemma infinity_ltb y : (infinity <? y)%float = false.
Proof.
  rewrite FloatAxioms.ltb_spec.
  change (Prim2SF infinity) with (S754_infinity false).
  destruct (Prim2SF y) as [[]|[]| |[] m e]; reflexivity.
Qed.

Lemma finite_ltb_infinity x :
  is_finite x = true -> (x <? infinity)%float = true.
Proof.
  unfold is_finite, is_nan, is_infinity.
  rewrite !FloatAxioms.eqb_spec, abs_spec, FloatAxioms.ltb_spec.
  change (Prim2SF infinity) with (S754_infinity false).
  destruct (Prim2SF x) as [[]|[]| |[] m e]; try reflexivity; try discriminate.
Qed.

End FloatFacts.

(** ** Facts about strings *)

Module StringFacts.

Import JsString.

Lemma includes_In l x : includes l x = true <-> In x l.
Proof.
  unfold includes. rewrite existsb_exists. split.
  - intros (y & Hy & E). apply String.eqb_eq in E. congruence.
  - intros H. exists x. split; [exact H | apply String.eqb_refl].
Qed.

End StringFacts.

(** ** Properties of the route-proximity filter *)

Section FindNearby.

Context (rt : Runtime).

Import JsNumber JsString FloatFacts StringFacts.

(** C10. A decoded path with fewer than two points (none, or one) yields the
    empty list, whatever the lateral threshold and the branch rows are. *)
Theorem degenerate_path_empty (DISTANCE_THRESHOLD : float) (encoded : string)
    (branches : list BranchRow.t) :
  (length (polyline_decode rt encoded) < 2)%nat ->
  findNearbyBranchesFromPolyline rt DISTANCE_THRESHOLD encoded branches = [].
Proof.
  intros Hlen. unfold findNearbyBranchesFromPolyline, decodePath.
  rewrite length_map.
  destruct (Nat.ltb_spec (length (polyline_decode rt encoded)) 2); [|lia].
  reflexivity.
Qed.

(** C4. A branch whose distance from the start exceeds 0.6 times the
    start-to-end distance is rejected: its row yields no result, and the
    list returned is the one returned without the row; the lateral threshold
    plays no part. *)
Theorem beyond_forward_bound_rejected (DISTANCE_THRESHOLD : float)
    (encoded : string) (before after : list BranchRow.t) (c : BranchRow.t)
    (startPoint endPoint : Point.t) :
  head (decodePath rt encoded) = Some startPoint ->
  last (decodePath rt encoded) = Some endPoint ->
  gt (getDistance rt startPoint (branchCoords rt c))
     (c0_6 * getDistance rt startPoint endPoint)%float = true ->
  evalBranch rt DISTANCE_THRESHOLD (decodePath rt encoded) startPoint
    (getDistance rt startPoint endPoint) c = None /\
  findNearbyBranchesFromPolyline rt DISTANCE_THRESHOLD encoded
    (before ++ c :: after) =
  findNearbyBranchesFromPolyline rt DISTANCE_THRESHOLD encoded
    (before ++ after).
Proof.
  intros Hh Hl Hgt.
  assert (Hnone : evalBranch rt DISTANCE_THRESHOLD (decodePath rt encoded)
            startPoint (getDistance rt startPoint endPoint) c = None).
  { unfold evalBranch. rewrite (mul_comm _ c0_6), Hgt.
    destruct (isNaN _ || isNaN _); reflexivity. }
  split; [exact Hnone|].
  unfold findNearbyBranchesFromPolyline.
  destruct (length (decodePath rt encoded) <? 2)%nat; [reflexivity|].
  rewrite Hh, Hl. rewrite !omap_app. simpl. rewrite Hnone. reflexivity.
Qed.

Lemma omap_sublist {A B} (f g : A -> option B) (l : list A) :
  (forall x y, f x = Some y -> g x = Some y) ->
  sublist (omap f l) (omap g l).
Proof.
  intros Hfg. induction l as [|x l IH]; simpl.
  - constructor.
  - destruct (f x) as [y|] eqn:E.
    + rewrite (Hfg _ _ E). by constructor.
    + destruct (g x); [by constructor | exact IH].
Qed.

Lemma evalBranch_mono lo hi decoded startPoint span branch r :
  (lo <=? hi)%float = true ->
  evalBranch rt lo decoded startPoint span branch = Some r ->
  evalBranch rt hi decoded startPoint span branch = Some r.
Proof.
  intros Hle. unfold evalBranch.
  destruct (isNaN _ || isNaN _); [discriminate|].
  destruct (gt _ (span * c0_6)); [discriminate|].
  destruct (scanRoute rt decoded (branchCoords rt branch)) as [minDist minLoc].
  destruct (gt minDist lo) eqn:Hlo; [discriminate|].
  intros [= <-].
  destruct (gt minDist hi) eqn:Hhi; [|reflexivity].
  unfold gt in *. rewrite (leb_ltb_trans _ _ _ Hle Hhi) in Hlo. discriminate.
Qed.

Lemma findNearby_mono lo hi encoded branches :
  (lo <=? hi)%float = true ->
  sublist (findNearbyBranchesFromPolyline rt lo encoded branches)
          (findNearbyBranchesFromPolyline rt hi encoded branches).
Proof.
  intros Hle. unfold findNearbyBranchesFromPolyline.
  destruct (length (decodePath rt encoded) <? 2)%nat; [constructor|].
  destruct (head (decodePath rt encoded)), (last (decodePath rt encoded));
    try constructor.
  apply omap_sublist. intros x y. by apply evalBranch_mono.
Qed.

End FindNearby.

(** ** Properties of the fleet index and of the candidate list *)

Section Fleet.

Context (rt : Runtime).

Import JsNumber JsString FloatFacts StringFacts.

Lemma getBest_unfold branches cars trips DT RT TIME encoded :
  getBestBranchWithAvailableEV rt branches cars trips DT RT TIME encoded =
  selectBest rt (freeCandidates_for rt branches cars trips DT RT TIME encoded).
Proof. reflexivity. Qed.

Lemma isHighRangeEv_spec RT car :
  isHighRangeEv rt RT car = true <->
  CarRow.type car = "electric"%string /\
  (RT <? parseFloat rt (CarRow.range_km car))%float = true.
Proof.
  unfold isHighRangeEv, gt. rewrite andb_true_iff, String.eqb_eq. tauto.
Qed.

Lemma ev_fold_lookup RT cars (m0 : gmap string EvEntry.t) k e :
  fold_left
    (fun m car =>
       if isHighRangeEv rt RT car
       then <[trim (CarRow.id car) := entryOf rt car]> m else m) cars m0 !! k
  = Some e ->
  m0 !! k = Some e \/
  exists car, car ∈ cars /\ isHighRangeEv rt RT car = true /\
              trim (CarRow.id car) = k /\ e = entryOf rt car.
Proof.
  revert m0. induction cars as [|car cars IH]; intros m0; simpl; [auto|].
  intros H. apply IH in H as [H|(car' & Hin & ?)].
  - destruct (isHighRangeEv rt RT car) eqn:E; [|auto].
    destruct (decide (trim (CarRow.id car) = k)) as [<-|Hne].
    + rewrite lookup_insert_eq in H. injection H as <-.
      right. exists car. repeat split; [left | exact E].
    + rewrite lookup_insert_ne in H by exact Hne. auto.
  - right. exists car'. split; [by right | assumption].
Qed.

Lemma ev_fold_is_Some RT cars (m0 : gmap string EvEntry.t) k :
  is_Some (m0 !! k) \/
  (exists car, car ∈ cars /\ isHighRangeEv rt RT car = true /\
               trim (CarRow.id car) = k) ->
  is_Some
    (fold_left
       (fun m car =>
          if isHighRangeEv rt RT car
          then <[trim (CarRow.id car) := entryOf rt car]> m else m) cars m0
     !! k).
Proof.
  revert m0. induction cars as [|car cars IH]; intros m0; simpl.
  - intros [H|(car & Hin & _)]; [exact H | by apply elem_of_nil in Hin].
  - intros [H|(car' & Hin & E & Hk)]; apply IH.
    + left. destruct (isHighRangeEv rt RT car); [|exact H].
      destruct (decide (trim (CarRow.id car) = k)) as [<-|Hne].
      * rewrite lookup_insert_eq. eauto.
      * by rewrite lookup_insert_ne.
    + apply elem_of_cons in Hin as [->|Hin].
      * left. rewrite E, Hk, lookup_insert_eq. eauto.
      * right. eauto.
Qed.

Lemma highRangeEvMap_lookup RT cars k e :
  highRangeEvMap_of rt RT cars !! k = Some e ->
  exists car, car ∈ cars /\ isHighRangeEv rt RT car = true /\
              trim (CarRow.id car) = k /\ e = entryOf rt car.
Proof.
  intros H. apply ev_fold_lookup in H as [H|H]; [|exact H].
  rewrite lookup_empty in H. discriminate.
Qed.

Lemma highRangeEvMap_is_Some RT cars k :
  is_Some (highRangeEvMap_of rt RT cars !! k) <->
  exists car, car ∈ cars /\ isHighRangeEv rt RT car = true /\
              trim (CarRow.id car) = k.
Proof.
  split.
  - intros [e H]. apply highRangeEvMap_lookup in H as (car & ? & ? & ? & _).
    eauto.
  - intros H. apply ev_fold_is_Some. right. exact H.
Qed.

Lemma isHighRangeEv_mono lo hi car :
  (lo <=? hi)%float = true ->
  isHighRangeEv rt hi car = true -> isHighRangeEv rt lo car = true.
Proof.
  intros Hle. rewrite !isHighRangeEv_spec. intros [? H]. split; [assumption|].
  eapply leb_ltb_trans; eassumption.
Qed.

(** *** The map of nearby branches *)

Lemma nearbyMap_fold_lookup (l : list NearbyBranchResult.t)
    (m0 : gmap string NearbyBranchResult.t) k info :
  fold_left (fun m b => <[NearbyBranchResult.Name b := b]> m) l m0 !! k
  = Some info ->
  m0 !! k = Some info \/ (info ∈ l /\ NearbyBranchResult.Name info = k).
Proof.
  revert m0. induction l as [|b l IH]; intros m0; simpl; [auto|].
  intros H. apply IH in H as [H|[Hin ?]].
  - destruct (decide (NearbyBranchResult.Name b = k)) as [<-|Hne].
    + rewrite lookup_insert_eq in H. injection H as <-.
      right. split; [left | reflexivity].
    + rewrite lookup_insert_ne in H by exact Hne. auto.
  - right. split; [by right | assumption].
Qed.

Lemma nearbyMap_fold_is_Some (l : list NearbyBranchResult.t)
    (m0 : gmap string NearbyBranchResult.t) k :
  is_Some (m0 !! k) \/ (exists b, b ∈ l /\ NearbyBranchResult.Name b = k) ->
  is_Some
    (fold_left (fun m b => <[NearbyBranchResult.Name b := b]> m) l m0 !! k).
Proof.
  revert m0. induction l as [|b l IH]; intros m0; simpl.
  - intros [H|(b & Hin & _)]; [exact H | by apply elem_of_nil in Hin].
  - intros [H|(b' & Hin & Hk)]; apply IH.
    + left. destruct (decide (NearbyBranchResult.Name b = k)) as [<-|Hne].
      * rewrite lookup_insert_eq. eauto.
      * by rewrite lookup_insert_ne.
    + apply elem_of_cons in Hin as [->|Hin].
      * left. rewrite Hk, lookup_insert_eq. eauto.
      * right. eauto.
Qed.

Lemma nearbyMap_lookup l k info :
  nearbyMap_of l !! k = Some info ->
  info ∈ l /\ NearbyBranchResult.Name info = k.
Proof.
  intros H. apply nearbyMap_fold_lookup in H as [H|H]; [|exact H].
  rewrite lookup_empty in H. discriminate.
Qed.

Lemma nearbyMap_None l k :
  nearbyMap_of l !! k = None <->
  forall b, b ∈ l -> NearbyBranchResult.Name b <> k.
Proof.
  split.
  - intros Hn b Hin Hk.
    destruct (nearbyMap_fold_is_Some l ∅ k) as [x Hx]; [eauto|].
    unfold nearbyMap_of in Hn. congruence.
  - intros H. destruct (nearbyMap_of l !! k) as [info|] eqn:E; [|reflexivity].
    apply nearbyMap_lookup in E as [Hin Hk]. by apply H in Hin.
Qed.

Lemma nearbyMap_is_Some l k :
  is_Some (nearbyMap_of l !! k) <->
  exists b, b ∈ l /\ NearbyBranchResult.Name b = k.
Proof.
  split.
  - intros [info H]. apply nearbyMap_lookup in H. eauto.
  - intros H. apply nearbyMap_fold_is_Some. by right.
Qed.

(** *** Candidates, branch by branch *)

Lemma branchesWithEVs_cons nm branch branches :
  branchesWithEVs_of rt nm (branch :: branches) =
  branchesWithEVs_of rt nm [branch] ++ branchesWithEVs_of rt nm branches.
Proof.
  unfold branchesWithEVs_of. simpl.
  destruct (hasNearbyEv rt nm branch); simpl; [|reflexivity].
  destruct (withEVs rt nm branch); reflexivity.
Qed.

Lemma candidates_decompose nm m branches :
  candidates_of m (branchesWithEVs_of rt nm branches) =
  flat_map (contribution rt nm m) branches.
Proof.
  induction branches as [|branch branches IH]; [reflexivity|].
  rewrite branchesWithEVs_cons. unfold candidates_of in *.
  rewrite flat_map_app, IH. reflexivity.
Qed.

Lemma candidateOf_ev_ids m b (l : list string) :
  map Candidate.ev_id (omap (candidateOf m b) l) =
  map trim
    (List.filter (fun ev => bool_decide (is_Some (m !! trim ev))) l).
Proof.
  induction l as [|ev l IH]; [reflexivity|]. simpl.
  unfold candidateOf at 1.
  destruct (m !! trim ev) as [car|] eqn:E; simpl.
  - f_equal. exact IH.
  - exact IH.
Qed.

Lemma filter_nil_existsb {A} (f : A -> bool) (l : list A) :
  existsb f l = false -> List.filter f l = [].
Proof.
  induction l as [|x l IH]; [reflexivity|]. simpl.
  destruct (f x); simpl; [discriminate | exact IH].
Qed.

Lemma contribution_None nm m branch :
  nm !! BranchRow.Name branch = None -> contribution rt nm m branch = [].
Proof.
  intros H. unfold contribution, branchesWithEVs_of. simpl.
  destruct (hasNearbyEv rt nm branch); [|reflexivity]. simpl.
  unfold withEVs. rewrite H. reflexivity.
Qed.

Lemma contribution_ev_ids nm m branch :
  is_Some (nm !! BranchRow.Name branch) ->
  map Candidate.ev_id (contribution rt nm m branch) =
  map trim (eligibleIds rt m branch).
Proof.
  intros [info Hinfo]. unfold contribution, branchesWithEVs_of, eligibleIds.
  simpl. unfold hasNearbyEv. rewrite bool_decide_true by eauto. simpl.
  destruct (existsb isEvId (parseStringArray rt (BranchRow.cars branch)))
    eqn:Ex.
  - simpl. unfold withEVs. rewrite Hinfo. simpl. rewrite app_nil_r.
    apply candidateOf_ev_ids.
  - rewrite (filter_nil_existsb _ _ Ex). reflexivity.
Qed.

Lemma contribution_branch nm m branch c :
  c ∈ contribution rt nm m branch ->
  Candidate.branch c = BranchRow.Name branch.
Proof.
  unfold contribution, branchesWithEVs_of. simpl.
  destruct (hasNearbyEv rt nm branch); simpl; [|by intros ?%elem_of_nil].
  unfold withEVs. destruct (nm !! BranchRow.Name branch) as [info|];
    simpl; [|by intros ?%elem_of_nil].
  rewrite app_nil_r. unfold candidatesOfBranch. simpl.
  intros Hin. apply list_elem_of_omap in Hin as (ev & _ & Hc).
  unfold candidateOf in Hc. destruct (m !! trim ev); [|discriminate].
  simpl in Hc. injection Hc as <-. reflexivity.
Qed.

Lemma contribution_no_eligible nm m branch :
  eligibleIds rt m branch = [] -> contribution rt nm m branch = [].
Proof.
  intros H. destruct (nm !! BranchRow.Name branch) as [info|] eqn:E.
  - apply (map_eq_nil Candidate.ev_id).
    rewrite contribution_ev_ids by eauto. by rewrite H.
  - by apply contribution_None.
Qed.

Lemma candidates_indexed (m : gmap string EvEntry.t) bwes c :
  c ∈ candidates_of m bwes ->
  exists e, m !! Candidate.ev_id c = Some e /\
            Candidate.trip_ids c = EvEntry.trips e.
Proof.
  unfold candidates_of. rewrite list_elem_of_In, in_flat_map.
  intros (b & _ & Hin). apply list_elem_of_In in Hin.
  apply list_elem_of_omap in Hin as (ev & _ & Hc).
  unfold candidateOf in Hc.
  destruct (m !! trim ev) as [e|] eqn:E; [|discriminate].
  simpl in Hc. injection Hc as <-. simpl. eauto.
Qed.

(** C7. The index of eligible EVs holds exactly the (trimmed) ids of the
    cars whose type is electric and whose range is strictly above the
    threshold, each with such a car as its value; a car whose range equals
    the threshold, or whose type is not electric, is not eligible; every
    candidate carries the id and the trips of an eligible car, so a car that
    is not eligible, under an id of its own, is the EV of no candidate. *)
Theorem eligible_ev_index_exact (RANGE_THRESHOLD : float)
    (cars : list CarRow.t) :
  (forall k,
     is_Some (highRangeEvMap_of rt RANGE_THRESHOLD cars !! k) <->
     exists car, car ∈ cars /\ trim (CarRow.id car) = k /\
       CarRow.type car = "electric"%string /\
       (RANGE_THRESHOLD <? parseFloat rt (CarRow.range_km car))%float = true) /\
  (forall k e,
     highRangeEvMap_of rt RANGE_THRESHOLD cars !! k = Some e ->
     EvEntry.car e ∈ cars /\ trim (CarRow.id (EvEntry.car e)) = k /\
     CarRow.type (EvEntry.car e) = "electric"%string /\
     (RANGE_THRESHOLD <? parseFloat rt (CarRow.range_km (EvEntry.car e)))%float
       = true) /\
  (forall car,
     (parseFloat rt (CarRow.range_km car) =? RANGE_THRESHOLD)%float = true \/
     CarRow.type car <> "electric"%string ->
     isHighRangeEv rt RANGE_THRESHOLD car = false) /\
  (forall branches DISTANCE_THRESHOLD encoded c,
     c ∈ candidates_for rt branches cars DISTANCE_THRESHOLD RANGE_THRESHOLD
           encoded ->
     exists car, car ∈ cars /\ trim (CarRow.id car) = Candidate.ev_id c /\
       Candidate.trip_ids c =
         parseStringArray rt (Some (CarRow.trips_ids car)) /\
       CarRow.type car = "electric"%string /\
       (RANGE_THRESHOLD <? parseFloat rt (CarRow.range_km car))%float = true) /\
  (forall branches DISTANCE_THRESHOLD encoded car,
     isHighRangeEv rt RANGE_THRESHOLD car = false ->
     (forall car', car' ∈ cars ->
        trim (CarRow.id car') = trim (CarRow.id car) -> car' = car) ->
     forall c,
       c ∈ candidates_for rt branches cars DISTANCE_THRESHOLD RANGE_THRESHOLD
             encoded ->
       Candidate.ev_id c <> trim (CarRow.id car)).
Proof.
  assert (Hcand : forall branches DT encoded c,
            c ∈ candidates_for rt branches cars DT RANGE_THRESHOLD encoded ->
            exists car, car ∈ cars /\
              isHighRangeEv rt RANGE_THRESHOLD car = true /\
              trim (CarRow.id car) = Candidate.ev_id c /\
              Candidate.trip_ids c =
                parseStringArray rt (Some (CarRow.trips_ids car))).
  { intros branches DT encoded c Hc.
    apply candidates_indexed in Hc as (e & He & Htrips).
    apply highRangeEvMap_lookup in He as (car & ? & ? & ? & ->).
    exists car. rewrite Htrips. auto. }
  repeat split.
  - intros H. apply highRangeEvMap_is_Some in H as (car & ? & E & ?).
    apply isHighRangeEv_spec in E as [? ?]. eauto 6.
  - intros (car & ? & ? & ? & ?). apply highRangeEvMap_is_Some.
    exists car. rewrite isHighRangeEv_spec. auto.
  - apply highRangeEvMap_lookup in H as (car & ? & ? & ? & ->). assumption.
  - apply highRangeEvMap_lookup in H as (car & ? & ? & ? & ->). assumption.
  - apply highRangeEvMap_lookup in H as (car & ? & E & ? & ->).
    by apply isHighRangeEv_spec in E as [? ?].
  - apply highRangeEvMap_lookup in H as (car & ? & E & ? & ->).
    by apply isHighRangeEv_spec in E as [? ?].
  - intros car [Heq|Hty]; unfold isHighRangeEv.
    + unfold gt. rewrite (eqb_not_ltb _ _ Heq). apply andb_false_r.
    + apply String.eqb_neq in Hty. rewrite Hty. reflexivity.
  - intros branches DT encoded c Hc.
    destruct (Hcand _ _ _ _ Hc) as (car & ? & E & ? & ?).
    apply isHighRangeEv_spec in E as [? ?]. eauto 7.
  - intros branches DT encoded car Hno Huniq c Hc Heq.
    destruct (Hcand _ _ _ _ Hc) as (car' & Hin & E & Hid & _).
    rewrite (Huniq car' Hin) in E by congruence. congruence.
Qed.

(** C8. Raising the lateral threshold never loses a branch of the
    route-proximity filter: the list returned at the smaller threshold is a
    sublist of the one returned at the larger.  Raising the range threshold
    never adds to the index of eligible EVs: its ids at the larger threshold
    are among those at the smaller. *)
Theorem threshold_monotone (lo hi : float) :
  (lo <=? hi)%float = true ->
  (forall encoded branches,
     sublist (findNearbyBranchesFromPolyline rt lo encoded branches)
             (findNearbyBranchesFromPolyline rt hi encoded branches)) /\
  (forall cars,
     dom (highRangeEvMap_of rt hi cars) ⊆ dom (highRangeEvMap_of rt lo cars)).
Proof.
  intros Hle. split.
  - intros encoded branches. by apply findNearby_mono.
  - intros cars k. rewrite !elem_of_dom, !highRangeEvMap_is_Some.
    intros (car & ? & E & ?). exists car.
    eauto using isHighRangeEv_mono.
Qed.

(** C9. The candidate list is the concatenation, in the order of the
    branch rows, of what each row contributes.  A row whose name is among
    the nearby results contributes one candidate per eligible EV id it
    lists (two candidates for two such ids); a row whose name is in no
    nearby result, or that lists no eligible EV id, contributes none. *)
Theorem candidates_cross_product (branches : list BranchRow.t)
    (cars : list CarRow.t) (DISTANCE_THRESHOLD RANGE_THRESHOLD : float)
    (encoded : string) :
  let nearbyMap := nearbyMap_for rt branches DISTANCE_THRESHOLD encoded in
  let highRangeEvMap := highRangeEvMap_of rt RANGE_THRESHOLD cars in
  candidates_for rt branches cars DISTANCE_THRESHOLD RANGE_THRESHOLD encoded =
    flat_map (contribution rt nearbyMap highRangeEvMap) branches /\
  forall branch : BranchRow.t,
    ((exists r,
        r ∈ findNearbyBranchesFromPolyline rt DISTANCE_THRESHOLD encoded
              branches /\
        NearbyBranchResult.Name r = BranchRow.Name branch) ->
     map Candidate.ev_id (contribution rt nearbyMap highRangeEvMap branch) =
       map trim (eligibleIds rt highRangeEvMap branch) /\
     length (contribution rt nearbyMap highRangeEvMap branch) =
       length (eligibleIds rt highRangeEvMap branch) /\
     forall e1 e2, eligibleIds rt highRangeEvMap branch = [e1; e2] ->
       exists c1 c2,
         contribution rt nearbyMap highRangeEvMap branch = [c1; c2] /\
         Candidate.ev_id c1 = trim e1 /\ Candidate.ev_id c2 = trim e2 /\
         Candidate.branch c1 = BranchRow.Name branch /\
         Candidate.branch c2 = BranchRow.Name branch) /\
    ((forall r,
        r ∈ findNearbyBranchesFromPolyline rt DISTANCE_THRESHOLD encoded
              branches ->
        NearbyBranchResult.Name r <> BranchRow.Name branch) ->
     contribution rt nearbyMap highRangeEvMap branch = []) /\
    (eligibleIds rt highRangeEvMap branch = [] ->
     contribution rt nearbyMap highRangeEvMap branch = []).
Proof.
  intros nearbyMap highRangeEvMap. split; [apply candidates_decompose|].
  intros branch. split; [|split].
  - intros Hsome. apply nearbyMap_is_Some in Hsome.
    pose proof (contribution_ev_ids nearbyMap highRangeEvMap branch Hsome)
      as Hids.
    split; [exact Hids|]. split.
    + apply (f_equal length) in Hids. by rewrite !length_map in Hids.
    + intros e1 e2 He. rewrite He in Hids.
      pose proof (contribution_branch nearbyMap highRangeEvMap branch) as Hb.
      destruct (contribution rt nearbyMap highRangeEvMap branch)
        as [|c1 [|c2 [|c3 l]]]; try discriminate.
      injection Hids as H1 H2. exists c1, c2.
      repeat split; try assumption; apply Hb; set_solver.
  - intros Hno. apply contribution_None. by apply nearbyMap_None.
  - apply contribution_no_eligible.
Qed.

End Fleet.

(** ** Properties of the booked-date index *)

Section Bookings.

Context (rt : Runtime).

Import JsNumber JsString FloatFacts StringFacts.

Lemma truthy_Some ts : truthy (Some ts) = true <-> ts <> ""%string.
Proof.
  simpl. rewrite negb_true_iff. apply String.eqb_neq.
Qed.

Lemma bookTrip_books bookedMap trip ts :
  trim (TripRow.car_id trip) <> ""%string ->
  or_else (trim <$> TripRow.departure_time trip)
          (trim <$> TripRow.arrival_time trip) = Some ts ->
  ts <> ""%string ->
  is_Some (Date_parse rt ts) ->
  bookTrip rt bookedMap trip =
  <[trim (TripRow.car_id trip) :=
      default [] (bookedMap !! trim (TripRow.car_id trip)) ++
      [toLocalDate rt (DateString ts)]]> bookedMap.
Proof.
  intros Hid Hts Hne [tv Htv]. unfold bookTrip. rewrite Hts.
  apply truthy_Some in Hid, Hne. rewrite Hid, Hne. simpl.
  rewrite bool_decide_false by congruence. reflexivity.
Qed.

Lemma bookTrip_skips_unparseable bookedMap trip ts :
  or_else (trim <$> TripRow.departure_time trip)
          (trim <$> TripRow.arrival_time trip) = Some ts ->
  Date_parse rt ts = None ->
  bookTrip rt bookedMap trip = bookedMap.
Proof.
  intros Hts Hp. unfold bookTrip. rewrite Hts.
  rewrite (bool_decide_true _ Hp), orb_true_r. reflexivity.
Qed.

Lemma bookTrip_skips_absent bookedMap trip :
  truthy (or_else (trim <$> TripRow.departure_time trip)
                  (trim <$> TripRow.arrival_time trip)) = false ->
  bookTrip rt bookedMap trip = bookedMap.
Proof.
  intros Hf. unfold bookTrip.
  destruct (or_else _ _) as [ts|]; [|reflexivity].
  rewrite Hf. simpl. rewrite orb_true_r. reflexivity.
Qed.

Lemma or_else_present (a b : option string) ts :
  a = Some ts -> ts <> ""%string -> or_else a b = Some ts.
Proof.
  intros -> Hne. unfold or_else. apply truthy_Some in Hne. by rewrite Hne.
Qed.

Lemma or_else_absent (a b : option string) :
  truthy a = false -> or_else a b = b.
Proof. intros H. unfold or_else. by rewrite H. Qed.

Lemma bookTrip_skips_no_id bookedMap trip :
  trim (TripRow.car_id trip) = ""%string ->
  bookTrip rt bookedMap trip = bookedMap.
Proof.
  intros Hid. unfold bookTrip. rewrite Hid.
  destruct (or_else _ _); reflexivity.
Qed.

(** C6 (amended). A trip row that names a vehicle adds exactly one date to
    the list of that vehicle: the local date of its departure time when that
    is present, otherwise of its arrival time when that is present.  A row
    with a blank vehicle id, with neither time, or whose chosen time does
    not parse, leaves the index as it was.  The callback is total: no row
    raises an error. *)
Theorem booked_date_per_trip (bookedMap : gmap string (list string))
    (trip : TripRow.t) :
  let id := trim (TripRow.car_id trip) in
  let departure := trim <$> TripRow.departure_time trip in
  let arrival := trim <$> TripRow.arrival_time trip in
  let adding ts :=
    <[id := default [] (bookedMap !! id) ++ [toLocalDate rt (DateString ts)]]>
      bookedMap in
  (id <> ""%string ->
   (forall ts, departure = Some ts -> ts <> ""%string ->
      (is_Some (Date_parse rt ts) -> bookTrip rt bookedMap trip = adding ts) /\
      (Date_parse rt ts = None -> bookTrip rt bookedMap trip = bookedMap)) /\
   (forall ts,
      truthy departure = false -> arrival = Some ts -> ts <> ""%string ->
      (is_Some (Date_parse rt ts) -> bookTrip rt bookedMap trip = adding ts) /\
      (Date_parse rt ts = None -> bookTrip rt bookedMap trip = bookedMap))) /\
  (id = ""%string -> bookTrip rt bookedMap trip = bookedMap) /\
  (truthy departure = false -> truthy arrival = false ->
   bookTrip rt bookedMap trip = bookedMap) /\
  (forall trips,
     bookedMap_of rt (trips ++ [trip]) =
     bookTrip rt (bookedMap_of rt trips) trip).
Proof.
  intros id departure arrival adding. split; [|split; [|split]].
  - intros Hid. split; intros ts; [intros Hd Hne | intros Hd Ha Hne]; split.
    + intros Hp. apply bookTrip_books; try assumption.
      by apply or_else_present.
    + intros Hp. eapply bookTrip_skips_unparseable; [|exact Hp].
      by apply or_else_present.
    + intros Hp. apply bookTrip_books; try assumption.
      fold departure arrival. by rewrite or_else_absent.
    + intros Hp. eapply bookTrip_skips_unparseable; [|exact Hp].
      fold departure arrival. by rewrite or_else_absent.
  - apply bookTrip_skips_no_id.
  - intros Hd Ha. apply bookTrip_skips_absent.
    fold departure arrival. by rewrite or_else_absent.
  - intros trips. unfold bookedMap_of. by rewrite fold_left_app.
Qed.

(** *** Dates stay in the index once booked *)

Lemma bookTrip_keeps bookedMap trip id d :
  d ∈ default [] (bookedMap !! id) ->
  d ∈ default [] (bookTrip rt bookedMap trip !! id).
Proof.
  intros Hd. unfold bookTrip.
  destruct (or_else _ _) as [ts|]; [|exact Hd].
  destruct (_ || _ || _); [exact Hd|].
  destruct (decide (trim (TripRow.car_id trip) = id)) as [<-|Hne].
  - rewrite lookup_insert_eq. simpl. set_solver.
  - by rewrite lookup_insert_ne.
Qed.

Lemma bookedMap_fold_keeps trips bookedMap id d :
  d ∈ default [] (bookedMap !! id) ->
  d ∈ default [] (fold_left (bookTrip rt) trips bookedMap !! id).
Proof.
  revert bookedMap. induction trips as [|t trips IH]; intros m Hd; [exact Hd|].
  simpl. apply IH. by apply bookTrip_keeps.
Qed.

Lemma bookedMap_contains trips trip ts :
  trip ∈ trips ->
  trim (TripRow.car_id trip) <> ""%string ->
  or_else (trim <$> TripRow.departure_time trip)
          (trim <$> TripRow.arrival_time trip) = Some ts ->
  ts <> ""%string ->
  is_Some (Date_parse rt ts) ->
  toLocalDate rt (DateString ts) ∈
    default [] (bookedMap_of rt trips !! trim (TripRow.car_id trip)).
Proof.
  intros Hin Hid Hts Hne Hp. unfold bookedMap_of.
  generalize (∅ : gmap string (list string)).
  induction trips as [|t trips IH]; intros m; [by apply elem_of_nil in Hin|].
  simpl. apply elem_of_cons in Hin as [<-|Hin].
  - apply bookedMap_fold_keeps.
    rewrite (bookTrip_books _ _ _ Hid Hts Hne Hp), lookup_insert_eq.
    simpl. set_solver.
  - by apply IH.
Qed.

Lemma isFree_booked bookedMap desiredDate c :
  desiredDate ∈ default [] (bookedMap !! Candidate.ev_id c) ->
  isFree bookedMap desiredDate c = false.
Proof.
  intros H. unfold isFree. apply negb_false_iff, includes_In.
  by apply list_elem_of_In.
Qed.

End Bookings.

(** ** Properties of the selection *)

Section Selection.

Context (rt : Runtime).

Import JsNumber JsString FloatFacts StringFacts.

Local Abbreviation ratio := BestBranchResult.distanceRatio.

Lemma selected_step l best cur :
  selected l best -> selected (l ++ [cur]) (pickBest best cur).
Proof.
  intros (pre & post & -> & Hmin & Hpre). unfold pickBest.
  destruct (ratio cur <? ratio best)%float eqn:E.
  - exists (pre ++ best :: post), []. split; [reflexivity|]. split.
    + intros s Hs. apply elem_of_app in Hs as [Hs|Hs].
      * destruct (ratio s <? ratio cur)%float eqn:E'; [|reflexivity].
        rewrite <- (Hmin s Hs). symmetry. eapply ltb_trans; eassumption.
      * apply list_elem_of_singleton in Hs as ->. apply ltb_irrefl.
    + intros s Hs.
      destruct (isNaN (ratio s)) eqn:Hn; [by left | right].
      destruct (ltb_not_nan _ _ E) as [_ Hb].
      eapply ltb_leb_trans; [exact E|].
      apply not_ltb_leb; auto.
  - exists pre, (post ++ [cur]). split; [by rewrite <- app_assoc|]. split.
    + intros s Hs. apply elem_of_app in Hs as [Hs|Hs]; [by apply Hmin|].
      by apply list_elem_of_singleton in Hs as ->.
    + exact Hpre.
Qed.

Lemma selected_fold rest l best :
  selected l best -> selected (l ++ rest) (fold_left pickBest rest best).
Proof.
  revert l best. induction rest as [|cur rest IH]; intros l best H; simpl.
  - by rewrite app_nil_r.
  - replace (l ++ cur :: rest) with ((l ++ [cur]) ++ rest)
      by (by rewrite <- app_assoc).
    apply IH. by apply selected_step.
Qed.

Lemma selected_reduce first rest :
  selected (first :: rest) (fold_left pickBest rest first).
Proof.
  apply (selected_fold rest [first]).
  exists [], []. split; [reflexivity|]. split.
  - intros s Hs. apply list_elem_of_singleton in Hs as ->. apply ltb_irrefl.
  - intros s Hs. by apply elem_of_nil in Hs.
Qed.

Lemma selectBest_cases freeCandidates :
  match selectBest rt freeCandidates with
  | Returns None => freeCandidates = []
  | Returns (Some r) =>
      exists first rest,
        mapM (score rt) freeCandidates = Some (first :: rest) /\
        r = fold_left pickBest rest first
  | Throws =>
      freeCandidates <> [] /\ mapM (score rt) freeCandidates = None
  end.
Proof.
  unfold selectBest. destruct freeCandidates as [|c l]; [reflexivity|].
  simpl length. cbv iota beta.
  change (S (length l) =? 0)%nat with false. cbv iota.
  destruct (mapM (score rt) (c :: l)) as [[|first rest]|] eqn:E.
  - apply mapM_Some in E. inversion E.
  - eauto.
  - split; [discriminate | reflexivity].
Qed.

Lemma mapM_score_total (l : list Candidate.t) :
  (forall c, c ∈ l -> is_Some (Candidate.minDistanceLocation c)) ->
  is_Some (mapM (score rt) l).
Proof.
  intros H. apply mapM_is_Some. apply Forall_forall. intros c Hc.
  destruct (H c Hc) as [p Hp]. unfold compose, score. rewrite Hp. simpl. eauto.
Qed.

Lemma fold_pickBest_stays rest first :
  (forall s, s ∈ rest -> (ratio s <? ratio first)%float = false) ->
  fold_left pickBest rest first = first.
Proof.
  induction rest as [|cur rest IH]; intros H; [reflexivity|]. simpl.
  unfold pickBest at 2. rewrite (H cur) by set_solver.
  apply IH. intros s Hs. apply H. set_solver.
Qed.

Lemma nan_ltb_r x y : isNaN y = true -> (x <? y)%float = false.
Proof.
  intros Hn. destruct (x <? y)%float eqn:E; [|reflexivity].
  apply ltb_not_nan in E as [_ E]. congruence.
Qed.

(** The outcome of the reduce on a scored list: when the first score is
    [NaN] the first element stays; otherwise the element returned has a
    score that is a number, at most every score that is a number, and
    strictly below every such score before it. *)
Lemma reduce_outcome first rest :
  exists pre post,
    first :: rest = pre ++ fold_left pickBest rest first :: post /\
    (forall s, s ∈ first :: rest ->
       (ratio s <? ratio (fold_left pickBest rest first))%float = false) /\
    (forall s, s ∈ pre ->
       isNaN (ratio s) = true \/
       (ratio (fold_left pickBest rest first) <? ratio s)%float = true) /\
    (isNaN (ratio first) = true ->
     fold_left pickBest rest first = first /\ pre = []) /\
    (isNaN (ratio first) = false ->
     isNaN (ratio (fold_left pickBest rest first)) = false).
Proof.
  destruct (isNaN (ratio first)) eqn:Hfirst.
  - assert (Hstay : fold_left pickBest rest first = first)
      by (apply fold_pickBest_stays; intros s _; by apply nan_ltb_r).
    rewrite Hstay. exists [], rest. split; [reflexivity|].
    split; [intros s _; by apply nan_ltb_r|].
    split; [by intros s ?%elem_of_nil|]. split; [auto | discriminate].
  - destruct (selected_reduce first rest) as (pre & post & Hl & Hmin & Hpre).
    exists pre, post. split; [exact Hl|]. split; [exact Hmin|].
    split; [exact Hpre|]. split; [discriminate|]. intros _.
    destruct pre as [|x pre].
    + simpl in Hl. injection Hl as Hl _. by rewrite <- Hl.
    + simpl in Hl. injection Hl as Hl _. subst x.
      destruct (Hpre first) as [Hn|Hlt]; [left | congruence |].
      by apply ltb_not_nan in Hlt as [? _].
Qed.

(** C1 (amended). The selection returns [null] exactly when the list of
    free candidates is empty.  When it returns a candidate, that candidate
    stands in the scored list, no candidate scores strictly below it, and
    every candidate before it scores strictly above it or has the score
    [NaN].  When the score of the first candidate is a number, the candidate
    returned has a score that is a number, at most every score that is a
    number and strictly below every such score before it: it is the first
    candidate of minimum score among those whose score is a number.  When
    the score of the first candidate is [NaN], the first candidate is
    returned, whatever the others score.  With no score [NaN] the candidate
    returned is the first of minimum score.  The selection does return a
    candidate whenever the list is not empty and every candidate has its
    nearest point.  Equal lists give equal results. *)
Theorem selectBest_minimum (freeCandidates : list Candidate.t) :
  (selectBest rt freeCandidates = Returns None <-> freeCandidates = []) /\
  (forall r, selectBest rt freeCandidates = Returns (Some r) ->
     exists first rest pre post,
       mapM (score rt) freeCandidates = Some (first :: rest) /\
       first :: rest = pre ++ r :: post /\
       (forall s, s ∈ first :: rest -> (ratio s <? ratio r)%float = false) /\
       (forall s, s ∈ pre ->
          isNaN (ratio s) = true \/ (ratio r <? ratio s)%float = true) /\
       (isNaN (ratio first) = false ->
        isNaN (ratio r) = false /\
        (forall s, s ∈ first :: rest -> isNaN (ratio s) = false ->
           (ratio r <=? ratio s)%float = true) /\
        (forall s, s ∈ pre -> isNaN (ratio s) = false ->
           (ratio r <? ratio s)%float = true)) /\
       (isNaN (ratio first) = true -> r = first /\ pre = []) /\
       ((forall s, s ∈ first :: rest -> isNaN (ratio s) = false) ->
        (forall s, s ∈ first :: rest -> (ratio r <=? ratio s)%float = true) /\
        (forall s, s ∈ pre -> (ratio r <? ratio s)%float = true))) /\
  (freeCandidates <> [] ->
   (forall c, c ∈ freeCandidates ->
      is_Some (Candidate.minDistanceLocation c)) ->
   exists r, selectBest rt freeCandidates = Returns (Some r)) /\
  (forall other, other = freeCandidates ->
     selectBest rt other = selectBest rt freeCandidates).
Proof.
  pose proof (selectBest_cases freeCandidates) as Hc.
  split; [|split; [|split]].
  - split.
    + intros E. by rewrite E in Hc.
    + intros ->. reflexivity.
  - intros r E. rewrite E in Hc. destruct Hc as (first & rest & Hm & ->).
    destruct (reduce_outcome first rest)
      as (pre & post & Hl & Hmin & Hpre & Hnan & Hnum).
    exists first, rest, pre, post.
    split; [exact Hm|]. split; [exact Hl|]. split; [exact Hmin|].
    split; [exact Hpre|].
    assert (Hamong : isNaN (ratio (fold_left pickBest rest first)) = false ->
              (forall s, s ∈ first :: rest -> isNaN (ratio s) = false ->
                 (ratio (fold_left pickBest rest first) <=? ratio s)%float
                 = true) /\
              (forall s, s ∈ pre -> isNaN (ratio s) = false ->
                 (ratio (fold_left pickBest rest first) <? ratio s)%float
                 = true)).
    { intros Hr. split.
      - intros s Hs Hn. apply not_ltb_leb; auto.
      - intros s Hs Hn. destruct (Hpre s Hs) as [Hn'|Hlt]; [congruence|].
        exact Hlt. }
    split; [|split; [exact Hnan|]].
    + intros Hfirst. specialize (Hnum Hfirst). split; [exact Hnum|].
      by apply Hamong.
    + intros Hnn.
      assert (Hin : forall s, s ∈ pre -> s ∈ first :: rest)
        by (intros s Hs; rewrite Hl; apply elem_of_app; by left).
      assert (Hfirst : isNaN (ratio first) = false) by (apply Hnn; left).
      destruct (Hamong (Hnum Hfirst)) as [H1 H2]. split.
      * intros s Hs. apply H1; auto.
      * intros s Hs. apply H2; auto.
  - intros Hne Hloc. destruct (mapM_score_total _ Hloc) as [scored Hs].
    destruct (selectBest rt freeCandidates) as [[r|]|]; [eauto| |].
    + contradiction.
    + destruct Hc as [_ Hc]. congruence.
  - intros other ->. reflexivity.
Qed.

End Selection.

(** ** Properties of the distance and of the scan of the route *)

Section Geometry.

Context (rt : Runtime).

Import JsNumber JsString FloatFacts StringFacts.

Lemma sin_sq_eq_abs x y :
  sin_sq_even rt -> eq_abs x y ->
  Math_pow rt (Math_sin rt x) 2 = Math_pow rt (Math_sin rt y) 2.
Proof. intros H [->| ->]; [reflexivity | apply H]. Qed.

Lemma half_angle_swap a b :
  eq_abs ((b - a) * PI / 180 / 2)%float ((a - b) * PI / 180 / 2)%float.
Proof. do 2 apply eq_abs_div. apply eq_abs_mul. apply sub_swap. Qed.

Lemma getDistance_sym p q :
  sin_sq_even rt -> getDistance rt p q = getDistance rt q p.
Proof.
  intros H. unfold getDistance.
  rewrite (sin_sq_eq_abs _ _ H (half_angle_swap (Point.lat p) (Point.lat q))).
  rewrite (sin_sq_eq_abs _ _ H (half_angle_swap (Point.lng p) (Point.lng q))).
  rewrite (mul_comm (Math_cos rt (Point.lat p * PI / 180))).
  reflexivity.
Qed.

Lemma scan_inv_step coords seen st pt :
  scan_inv rt coords seen st ->
  scan_inv rt coords (seen ++ [pt]) (scanStep rt coords st pt).
Proof.
  destruct st as [d loc]. intros [Hloc Hmin]. unfold scanStep. simpl in *.
  destruct (getDistance rt pt coords <? d)%float eqn:E; split; simpl.
  - split; [set_solver|]. split; [reflexivity|].
    destruct loc as [p|].
    + destruct Hloc as (_ & _ & Hd). eapply ltb_trans; eassumption.
    + by subst d.
  - intros q Hq. apply elem_of_app in Hq as [Hq|Hq].
    + destruct (getDistance rt q coords <? getDistance rt pt coords)%float
        eqn:E'; [|reflexivity].
      rewrite <- (Hmin q Hq). symmetry. eapply ltb_trans; eassumption.
    + apply list_elem_of_singleton in Hq as ->. apply ltb_irrefl.
  - destruct loc as [p|]; [|exact Hloc].
    destruct Hloc as (? & ? & ?). split; [set_solver | auto].
  - intros q Hq. apply elem_of_app in Hq as [Hq|Hq]; [by apply Hmin|].
    by apply list_elem_of_singleton in Hq as ->.
Qed.

Lemma scan_inv_fold coords rest seen st :
  scan_inv rt coords seen st ->
  scan_inv rt coords (seen ++ rest) (fold_left (scanStep rt coords) rest st).
Proof.
  revert seen st. induction rest as [|pt rest IH]; intros seen st H; simpl.
  - by rewrite app_nil_r.
  - replace (seen ++ pt :: rest) with ((seen ++ [pt]) ++ rest)
      by (by rewrite <- app_assoc).
    apply IH. by apply scan_inv_step.
Qed.

Lemma scanRoute_spec decoded coords :
  scan_inv rt coords decoded (scanRoute rt decoded coords).
Proof.
  apply (scan_inv_fold coords decoded []). split; simpl.
  - reflexivity.
  - intros q Hq. by apply elem_of_nil in Hq.
Qed.

Lemma ltb_infinity_finite d :
  (d <? infinity)%float = true -> d <> neg_infinity -> is_finite d = true.
Proof.
  intros Hlt Hneg. unfold is_finite, is_nan, is_infinity.
  rewrite !FloatAxioms.eqb_spec, abs_spec.
  rewrite FloatAxioms.ltb_spec in Hlt.
  change (Prim2SF infinity) with (S754_infinity false) in *.
  destruct (Prim2SF d) as [[]|[]| |[] m e] eqn:E; try discriminate;
    try (unfold SFeqb; simpl;
         rewrite ?Z.compare_refl, ?Pos.compare_cont_refl; reflexivity).
  exfalso. apply Hneg. apply Prim2SF_inj. rewrite E. reflexivity.
Qed.

End Geometry.

(** ** Properties of the whole call *)

Section Pipeline.

Context (rt : Runtime).

Import JsNumber JsString FloatFacts StringFacts.

Local Abbreviation ratio := BestBranchResult.distanceRatio.

Lemma evalBranch_Some DT decoded startPoint span branch info :
  evalBranch rt DT decoded startPoint span branch = Some info ->
  NearbyBranchResult.Name info = BranchRow.Name branch /\
  scanRoute rt decoded (branchCoords rt branch) =
    (NearbyBranchResult.distanceToRoute_meters info,
     NearbyBranchResult.minDistanceLocation info) /\
  gt (NearbyBranchResult.distanceToRoute_meters info) DT = false.
Proof.
  unfold evalBranch.
  destruct (isNaN _ || isNaN _); [discriminate|].
  destruct (gt _ (span * c0_6)); [discriminate|].
  destruct (scanRoute rt decoded (branchCoords rt branch)) as [minDist minLoc].
  destruct (gt minDist DT) eqn:E; [discriminate|].
  intros [= <-]. auto.
Qed.

Lemma findNearby_elem DT encoded branches info :
  info ∈ findNearbyBranchesFromPolyline rt DT encoded branches ->
  exists branch, branch ∈ branches /\
    NearbyBranchResult.Name info = BranchRow.Name branch /\
    scanRoute rt (decodePath rt encoded) (branchCoords rt branch) =
      (NearbyBranchResult.distanceToRoute_meters info,
       NearbyBranchResult.minDistanceLocation info) /\
    gt (NearbyBranchResult.distanceToRoute_meters info) DT = false.
Proof.
  unfold findNearbyBranchesFromPolyline.
  destruct (length (decodePath rt encoded) <? 2)%nat;
    [by intros ?%elem_of_nil|].
  destruct (head (decodePath rt encoded)), (last (decodePath rt encoded));
    try by intros ?%elem_of_nil.
  intros Hin. apply list_elem_of_omap in Hin as (branch & Hb & He).
  apply evalBranch_Some in He. eauto.
Qed.

Lemma NoDup_Name_eq (branches : list BranchRow.t) b b' :
  NoDup (map BranchRow.Name branches) ->
  b ∈ branches -> b' ∈ branches ->
  BranchRow.Name b = BranchRow.Name b' -> b = b'.
Proof.
  induction branches as [|x l IH]; [by intros _ ?%elem_of_nil|].
  simpl. intros Hnd Hb Hb' Hn. apply NoDup_cons in Hnd as [Hx Hnd].
  assert (Hin : forall y, y ∈ l -> BranchRow.Name y ∈ map BranchRow.Name l).
  { intros y Hy. apply list_elem_of_In, in_map, list_elem_of_In, Hy. }
  apply elem_of_cons in Hb as [->|Hb], Hb' as [->|Hb']; auto.
  - exfalso. apply Hx. rewrite Hn. auto.
  - exfalso. apply Hx. rewrite <- Hn. auto.
Qed.

Lemma contribution_elem nm m branch c :
  c ∈ contribution rt nm m branch ->
  exists info, nm !! BranchRow.Name branch = Some info /\
    Point.mk (Candidate.lat c) (Candidate.lng c) = branchCoords rt branch /\
    Candidate.distanceToRoute_meters c =
      NearbyBranchResult.distanceToRoute_meters info /\
    Candidate.minDistanceLocation c =
      NearbyBranchResult.minDistanceLocation info.
Proof.
  unfold contribution, branchesWithEVs_of. simpl.
  destruct (hasNearbyEv rt nm branch); simpl; [|by intros ?%elem_of_nil].
  unfold withEVs. destruct (nm !! BranchRow.Name branch) as [info|];
    simpl; [|by intros ?%elem_of_nil].
  rewrite app_nil_r. unfold candidatesOfBranch. simpl.
  intros Hin. apply list_elem_of_omap in Hin as (ev & _ & Hc).
  unfold candidateOf in Hc. destruct (m !! trim ev); [|discriminate].
  simpl in Hc. injection Hc as <-. exists info. auto.
Qed.

(** Under unique branch names a candidate carries the coordinates of a
    branch row together with the outcome of the scan for that very row. *)
Lemma candidate_provenance branches cars DT RT encoded c :
  NoDup (map BranchRow.Name branches) ->
  c ∈ candidates_for rt branches cars DT RT encoded ->
  exists branch, branch ∈ branches /\
    Point.mk (Candidate.lat c) (Candidate.lng c) = branchCoords rt branch /\
    scanRoute rt (decodePath rt encoded) (branchCoords rt branch) =
      (Candidate.distanceToRoute_meters c, Candidate.minDistanceLocation c) /\
    gt (Candidate.distanceToRoute_meters c) DT = false.
Proof.
  intros Hnd Hc. unfold candidates_for in Hc.
  rewrite candidates_decompose in Hc.
  apply list_elem_of_In, in_flat_map in Hc as (branch & Hb & Hc).
  apply list_elem_of_In in Hb, Hc.
  apply contribution_elem in Hc as (info & Hinfo & Hco & Hd & Hl).
  apply nearbyMap_lookup in Hinfo as [Hinfo Hname].
  apply findNearby_elem in Hinfo as (branch' & Hb' & Hname' & Hscan & Hgt).
  assert (branch' = branch) as ->
    by (eapply NoDup_Name_eq; eauto; congruence).
  exists branch. rewrite Hd, Hl. auto.
Qed.

Lemma mapM_elem {A B} (f : A -> option B) l k y :
  mapM f l = Some k -> y ∈ k -> exists x, x ∈ l /\ f x = Some y.
Proof.
  intros H. apply mapM_Some in H. induction H as [|x z l k Hxz _ IH].
  - by intros ?%elem_of_nil.
  - intros [->|Hy]%elem_of_cons.
    + exists x. split; [left | exact Hxz].
    + destruct (IH Hy) as (x' & ? & ?). exists x'. split; [by right | done].
Qed.

Lemma one_or_nan_not_ltb x y :
  x = 1%float \/ x = nan -> y = 1%float \/ y = nan -> (x <? y)%float = false.
Proof.
  intros [->| ->] [->| ->]; reflexivity.
Qed.

(** The score of a candidate of the call, under unique branch names and a
    symmetric distance. *)
Lemma candidate_score branches cars DT RT encoded c s :
  sin_sq_even rt ->
  NoDup (map BranchRow.Name branches) ->
  c ∈ candidates_for rt branches cars DT RT encoded ->
  score rt c = Some s ->
  (exists p, p ∈ decodePath rt encoded /\
     Candidate.minDistanceLocation c = Some p /\
     Candidate.distanceToRoute_meters c =
       getDistance rt p (Point.mk (Candidate.lat c) (Candidate.lng c)) /\
     forall q, q ∈ decodePath rt encoded ->
       (getDistance rt q (Point.mk (Candidate.lat c) (Candidate.lng c)) <?
        Candidate.distanceToRoute_meters c)%float = false) /\
  BestBranchResult.distanceToMinLocation_meters s =
    Candidate.distanceToRoute_meters c /\
  (is_zero (BestBranchResult.distanceToMinLocation_meters s) = false ->
   BestBranchResult.distanceToMinLocation_meters s <> neg_infinity ->
   ratio s = 1%float) /\
  (is_zero (BestBranchResult.distanceToMinLocation_meters s) = true ->
   ratio s = nan) /\
  (ratio s = 1%float \/ ratio s = nan).
Proof.
  intros Hsin Hnd Hc Hs.
  destruct (candidate_provenance _ _ _ _ _ _ Hnd Hc)
    as (branch & _ & Hco & Hscan & _).
  pose proof (scanRoute_spec rt (decodePath rt encoded)
                (branchCoords rt branch)) as [Hloc Hmin].
  rewrite Hscan in Hloc, Hmin. simpl in Hloc, Hmin. rewrite <- Hco in *.
  unfold score in Hs.
  destruct (Candidate.minDistanceLocation c) as [p|]; [|discriminate].
  simpl in Hs. injection Hs as <-. simpl.
  destruct Hloc as (Hp & Hd & Hfin).
  rewrite (getDistance_sym rt _ p Hsin), <- Hd.
  split; [eauto 6|]. split; [reflexivity|]. split.
  - intros Hz Hneg. apply div_self; [|exact Hz].
    by apply ltb_infinity_finite.
  - split; [apply div_zero | apply div_self_cases].
Qed.

(** C2 (amended). When the square of the runtime's sine is even and branch
    names are unique: the distance is symmetric; for every candidate of the
    call the nearest point is a point of the path at which the recorded
    minimum was measured, the recomputed distance to it equals the recorded
    distance to the route, the ratio is 1 whenever that distance is a
    non-zero number and [NaN] when it is zero, never anything else; the
    candidate returned is the first free candidate, scored. *)
Theorem recomputed_distance_is_route_distance (branches : list BranchRow.t)
    (cars : list CarRow.t) (trips : list TripRow.t)
    (DISTANCE_THRESHOLD RANGE_THRESHOLD : float) (TIME : DateInput)
    (encoded : string) :
  sin_sq_even rt ->
  NoDup (map BranchRow.Name branches) ->
  (forall p q, getDistance rt p q = getDistance rt q p) /\
  (forall c s,
     c ∈ candidates_for rt branches cars DISTANCE_THRESHOLD RANGE_THRESHOLD
           encoded ->
     score rt c = Some s ->
     (exists p, p ∈ decodePath rt encoded /\
        Candidate.minDistanceLocation c = Some p /\
        Candidate.distanceToRoute_meters c =
          getDistance rt p (Point.mk (Candidate.lat c) (Candidate.lng c)) /\
        forall q, q ∈ decodePath rt encoded ->
          (getDistance rt q (Point.mk (Candidate.lat c) (Candidate.lng c)) <?
           Candidate.distanceToRoute_meters c)%float = false) /\
     BestBranchResult.distanceToMinLocation_meters s =
       Candidate.distanceToRoute_meters c /\
     (is_zero (BestBranchResult.distanceToMinLocation_meters s) = false ->
      BestBranchResult.distanceToMinLocation_meters s <> neg_infinity ->
      ratio s = 1%float) /\
     (is_zero (BestBranchResult.distanceToMinLocation_meters s) = true ->
      ratio s = nan) /\
     (ratio s = 1%float \/ ratio s = nan)) /\
  (forall r,
     getBestBranchWithAvailableEV rt branches cars trips DISTANCE_THRESHOLD
       RANGE_THRESHOLD TIME encoded = Returns (Some r) ->
     exists first rest,
       freeCandidates_for rt branches cars trips DISTANCE_THRESHOLD
         RANGE_THRESHOLD TIME encoded = first :: rest /\
       score rt first = Some r).
Proof.
  intros Hsin Hnd. split; [|split].
  - intros p q. by apply getDistance_sym.
  - intros c s. by apply candidate_score.
  - intros r Hr. rewrite getBest_unfold in Hr.
    pose proof (selectBest_cases rt
      (freeCandidates_for rt branches cars trips DISTANCE_THRESHOLD
         RANGE_THRESHOLD TIME encoded)) as Hc.
    rewrite Hr in Hc. destruct Hc as (sfirst & srest & Hm & ->).
    assert (Hall : forall s, s ∈ sfirst :: srest ->
              ratio s = 1%float \/ ratio s = nan).
    { intros s Hs. destruct (mapM_elem _ _ _ _ Hm Hs) as (c & Hc & Hsc).
      unfold freeCandidates_for in Hc.
      apply list_elem_of_In, filter_In in Hc as [Hc _].
      apply list_elem_of_In in Hc.
      eapply candidate_score; eauto. }
    rewrite fold_pickBest_stays.
    + apply mapM_Some in Hm.
      destruct (freeCandidates_for rt branches cars trips DISTANCE_THRESHOLD
                  RANGE_THRESHOLD TIME encoded) as [|first rest];
        inversion Hm; subst. eauto.
    + intros s Hs. apply one_or_nan_not_ltb; apply Hall; set_solver.
Qed.

Lemma mapM_elem_fwd {A B} (f : A -> option B) l k x y :
  mapM f l = Some k -> x ∈ l -> f x = Some y -> y ∈ k.
Proof.
  intros H. apply mapM_Some in H. induction H as [|x' z l k Hxz _ IH].
  - by intros ?%elem_of_nil.
  - intros [->|Hx]%elem_of_cons Hy.
    + assert (z = y) as -> by congruence. left.
    + right. by apply IH.
Qed.

Lemma div_zeros x y :
  is_zero x = true -> is_zero y = true -> (x / y)%float = nan.
Proof.
  unfold is_zero. rewrite !FloatAxioms.eqb_spec. intros Hx Hy.
  apply Prim2SF_inj. rewrite div_spec.
  change (Prim2SF 0) with (S754_zero false) in *.
  destruct (Prim2SF x) as [[]|[]| |[] m e]; try discriminate;
    destruct (Prim2SF y) as [[]|[]| |[] m' e']; try discriminate;
    reflexivity.
Qed.

(** C3 (amended). For a candidate whose recomputed distance is exactly
    zero: when its distance to the route is positive the score is
    [+Infinity], and then no selection among candidates that include one of
    finite score returns a score of [+Infinity]; when its distance to the
    route is zero as well the score is [NaN], and the candidate is returned
    when it is the first of the list; alone in the list it is returned in
    both cases. *)
Theorem zero_distance_score (c : Candidate.t) (s : BestBranchResult.t) :
  score rt c = Some s ->
  BestBranchResult.distanceToMinLocation_meters s = 0%float ->
  ((0 <? Candidate.distanceToRoute_meters c)%float = true ->
   ratio s = infinity /\
   forall freeCandidates c' s' r,
     c ∈ freeCandidates -> c' ∈ freeCandidates ->
     score rt c' = Some s' -> is_finite (ratio s') = true ->
     selectBest rt freeCandidates = Returns (Some r) ->
     ratio r <> infinity /\ r <> s) /\
  (is_zero (Candidate.distanceToRoute_meters c) = true ->
   ratio s = nan /\
   forall rest scored,
     mapM (score rt) rest = Some scored ->
     selectBest rt (c :: rest) = Returns (Some s)) /\
  selectBest rt [c] = Returns (Some s).
Proof.
  intros Hs Hz.
  assert (Hratio : ratio s =
            (Candidate.distanceToRoute_meters c / 0)%float).
  { unfold score in Hs.
    destruct (Candidate.minDistanceLocation c) as [p|]; [|discriminate].
    simpl in Hs. injection Hs as <-. simpl in *. by rewrite Hz. }
  split; [|split].
  - intros Hpos. rewrite (div_pos_zero _ Hpos) in Hratio.
    split; [exact Hratio|].
    intros free c' s' r _ Hc' Hs' Hfin Hr.
    pose proof (selectBest_cases rt free) as Hcases. rewrite Hr in Hcases.
    destruct Hcases as (first & rest & Hm & ->).
    destruct (selected_reduce first rest) as (pre & post & _ & Hmin & _).
    assert (Hne : ratio (fold_left pickBest rest first) <> infinity).
    { intros Hinf. pose proof (mapM_elem_fwd _ _ _ _ _ Hm Hc' Hs') as Hin.
      apply Hmin in Hin. rewrite Hinf, finite_ltb_infinity in Hin; done. }
    split; [exact Hne | congruence].
  - intros Hz'. rewrite (div_zeros _ 0 Hz' eq_refl) in Hratio.
    split; [exact Hratio|].
    intros rest scored Hm. unfold selectBest. simpl length.
    change (S (length rest) =? 0)%nat with false. cbv iota.
    change (mapM (score rt) (c :: rest))
      with (y ← score rt c; k ← mapM (score rt) rest; mret (y :: k)).
    rewrite Hs, Hm. simpl. f_equal. f_equal.
    apply fold_pickBest_stays. intros s' _. apply nan_ltb_r.
    rewrite Hratio. reflexivity.
  - unfold selectBest. simpl. rewrite Hs. reflexivity.
Qed.

(** C5 (amended). A candidate whose EV has a booking whose time falls on
    the same local calendar day as the target time, in the time zone of the
    runtime, is not among the free candidates, whatever the time of day of
    the booking; when every candidate has that EV the call returns [null]. *)
Theorem booked_candidate_excluded (branches : list BranchRow.t)
    (cars : list CarRow.t) (trips : list TripRow.t)
    (DISTANCE_THRESHOLD RANGE_THRESHOLD : float) (TIME : DateInput)
    (encoded : string) (trip : TripRow.t) (ts : string) :
  trip ∈ trips ->
  trim (TripRow.car_id trip) <> ""%string ->
  or_else (trim <$> TripRow.departure_time trip)
          (trim <$> TripRow.arrival_time trip) = Some ts ->
  ts <> ""%string ->
  is_Some (Date_parse rt ts) ->
  toLocalDate rt (DateString ts) = toLocalDate rt TIME ->
  (forall c,
     c ∈ freeCandidates_for rt branches cars trips DISTANCE_THRESHOLD
           RANGE_THRESHOLD TIME encoded ->
     Candidate.ev_id c <> trim (TripRow.car_id trip)) /\
  ((forall c,
      c ∈ candidates_for rt branches cars DISTANCE_THRESHOLD RANGE_THRESHOLD
            encoded ->
      Candidate.ev_id c = trim (TripRow.car_id trip)) ->
   getBestBranchWithAvailableEV rt branches cars trips DISTANCE_THRESHOLD
     RANGE_THRESHOLD TIME encoded = Returns None).
Proof.
  intros Hin Hid Hts Hne Hp Hdate.
  pose proof (bookedMap_contains rt trips trip ts Hin Hid Hts Hne Hp) as Hb.
  rewrite Hdate in Hb.
  assert (Hfree : forall c,
            c ∈ freeCandidates_for rt branches cars trips DISTANCE_THRESHOLD
                  RANGE_THRESHOLD TIME encoded ->
            Candidate.ev_id c <> trim (TripRow.car_id trip)).
  { intros c Hc Heq. unfold freeCandidates_for in Hc.
    apply list_elem_of_In, filter_In in Hc as [_ Hc].
    rewrite isFree_booked in Hc; [discriminate|]. by rewrite Heq. }
  split; [exact Hfree|].
  intros Hall. rewrite getBest_unfold.
  destruct (freeCandidates_for rt branches cars trips DISTANCE_THRESHOLD
              RANGE_THRESHOLD TIME encoded) as [|c l] eqn:E; [reflexivity|].
  exfalso. apply (Hfree c); [left|]. apply Hall.
  assert (Hc : c ∈ freeCandidates_for rt branches cars trips
                     DISTANCE_THRESHOLD RANGE_THRESHOLD TIME encoded)
    by (rewrite E; left).
  unfold freeCandidates_for in Hc.
  apply list_elem_of_In, filter_In in Hc as [Hc _]. by apply list_elem_of_In.
Qed.

End Pipeline.

(** ** The results of the route-proximity filter, one by one *)

Section NearbyResults.

Context (rt : Runtime).

Import JsNumber JsString FloatFacts StringFacts.

Lemma scan_first_step coords seen st pt :
  scan_first rt coords seen st ->
  scan_first rt coords (seen ++ [pt]) (scanStep rt coords st pt).
Proof.
  destruct st as [d loc]. intros [Hmin Hloc]. unfold scanStep. simpl in *.
  destruct (getDistance rt pt coords <? d)%float eqn:E; split; simpl.
  - intros q Hq. apply elem_of_app in Hq as [Hq|Hq].
    + destruct (getDistance rt q coords <? getDistance rt pt coords)%float
        eqn:E'; [|reflexivity].
      rewrite <- (Hmin q Hq). symmetry. eapply ltb_trans; eassumption.
    + apply list_elem_of_singleton in Hq as ->. apply ltb_irrefl.
  - exists seen, []. split; [reflexivity|]. split; [reflexivity|].
    intros q Hq.
    destruct (isNaN (getDistance rt q coords)) eqn:Hn; [by left | right].
    destruct (ltb_not_nan _ _ E) as [_ Hd].
    eapply ltb_leb_trans; [exact E|].
    apply not_ltb_leb; auto.
  - intros q Hq. apply elem_of_app in Hq as [Hq|Hq]; [by apply Hmin|].
    by apply list_elem_of_singleton in Hq as ->.
  - destruct loc as [p|]; [|exact Hloc].
    destruct Hloc as (pre & post & -> & Hd & Hpre).
    exists pre, (post ++ [pt]). split; [by rewrite <- app_assoc | auto].
Qed.

Lemma scan_first_fold coords rest seen st :
  scan_first rt coords seen st ->
  scan_first rt coords (seen ++ rest) (fold_left (scanStep rt coords) rest st).
Proof.
  revert seen st. induction rest as [|pt rest IH]; intros seen st H; simpl.
  - by rewrite app_nil_r.
  - replace (seen ++ pt :: rest) with ((seen ++ [pt]) ++ rest)
      by (by rewrite <- app_assoc).
    apply IH. by apply scan_first_step.
Qed.

(** X1. The scan of the route records the first point of the path at the
    least distance: no point of the path is strictly nearer to the branch
    than the recorded distance; the recorded point stands in the path, the
    recorded distance was measured there, and every point before it is
    strictly farther (or at a distance [NaN]); when no point is recorded the
    distance is still [Infinity]. *)
Theorem nearest_point_first_minimum (decoded : list Point.t)
    (coords : Point.t) :
  scan_first rt coords decoded (scanRoute rt decoded coords).
Proof.
  apply (scan_first_fold coords decoded []). split; simpl.
  - intros q Hq. by apply elem_of_nil in Hq.
  - reflexivity.
Qed.

Lemma scanRoute_not_nan decoded coords :
  isNaN (scanRoute rt decoded coords).1 = false.
Proof.
  pose proof (scanRoute_spec rt decoded coords) as [Hloc _].
  destruct (scanRoute rt decoded coords) as [d [p|]]; simpl in *.
  - destruct Hloc as (_ & _ & Hlt). by apply ltb_not_nan in Hlt as [? _].
  - by subst d.
Qed.

Lemma evalBranch_guards DT decoded startPoint span branch info :
  evalBranch rt DT decoded startPoint span branch = Some info ->
  isNaN (Point.lat (branchCoords rt branch)) = false /\
  isNaN (Point.lng (branchCoords rt branch)) = false /\
  gt (getDistance rt startPoint (branchCoords rt branch)) (span * c0_6)%float
    = false.
Proof.
  unfold evalBranch.
  destruct (isNaN (Point.lat _)); [discriminate|].
  destruct (isNaN (Point.lng _)); [discriminate|]. simpl.
  destruct (gt _ (span * c0_6)); [discriminate|]. auto.
Qed.

Lemma findNearby_omap DT encoded branches info :
  info ∈ findNearbyBranchesFromPolyline rt DT encoded branches ->
  exists startPoint endPoint branch,
    head (decodePath rt encoded) = Some startPoint /\
    last (decodePath rt encoded) = Some endPoint /\
    branch ∈ branches /\
    evalBranch rt DT (decodePath rt encoded) startPoint
      (getDistance rt startPoint endPoint) branch = Some info.
Proof.
  unfold findNearbyBranchesFromPolyline.
  destruct (length (decodePath rt encoded) <? 2)%nat;
    [by intros ?%elem_of_nil|].
  destruct (head (decodePath rt encoded)) as [s|],
           (last (decodePath rt encoded)) as [e|];
    try by intros ?%elem_of_nil.
  intros Hin. apply list_elem_of_omap in Hin as (branch & Hb & He).
  exists s, e, branch. auto.
Qed.

(** X2. Every result of the filter stands for a branch row that passed the
    three guards: it carries the name of the row; both coordinates of the
    row parse to numbers; the row is not beyond 0.6 times the start-to-end
    distance from the start; its distance to the route is a number, not
    above the threshold, and no point of the path is strictly nearer.  Its
    nearest point is a point of the path at that distance, or is missing,
    and then the distance is [Infinity]. *)
Theorem nearby_results_sound (DISTANCE_THRESHOLD : float) (encoded : string)
    (branches : list BranchRow.t) :
  Forall
    (fun info =>
       exists branch startPoint endPoint,
         branch ∈ branches /\
         NearbyBranchResult.Name info = BranchRow.Name branch /\
         head (decodePath rt encoded) = Some startPoint /\
         last (decodePath rt encoded) = Some endPoint /\
         isNaN (parseFloat rt (BranchRow.Lat branch)) = false /\
         isNaN (parseFloat rt (BranchRow.Lng branch)) = false /\
         (getDistance rt startPoint endPoint * c0_6 <?
          getDistance rt startPoint (branchCoords rt branch))%float = false /\
         isNaN (NearbyBranchResult.distanceToRoute_meters info) = false /\
         (DISTANCE_THRESHOLD <?
          NearbyBranchResult.distanceToRoute_meters info)%float = false /\
         (forall q, q ∈ decodePath rt encoded ->
            (getDistance rt q (branchCoords rt branch) <?
             NearbyBranchResult.distanceToRoute_meters info)%float = false) /\
         match NearbyBranchResult.minDistanceLocation info with
         | Some p =>
             p ∈ decodePath rt encoded /\
             NearbyBranchResult.distanceToRoute_meters info =
               getDistance rt p (branchCoords rt branch) /\
             (NearbyBranchResult.distanceToRoute_meters info <? infinity)%float
               = true
         | None => NearbyBranchResult.distanceToRoute_meters info = infinity
         end)
    (findNearbyBranchesFromPolyline rt DISTANCE_THRESHOLD encoded branches).
Proof.
  apply Forall_forall. intros info Hin.
  apply findNearby_omap in Hin as (s & e & branch & Hs & He & Hb & Hev).
  pose proof (evalBranch_guards _ _ _ _ _ _ Hev) as (Hlat & Hlng & Hfwd).
  apply evalBranch_Some in Hev as (Hname & Hscan & Hgt).
  pose proof (scanRoute_spec rt (decodePath rt encoded)
                (branchCoords rt branch)) as [Hloc Hmin].
  pose proof (scanRoute_not_nan (decodePath rt encoded)
                (branchCoords rt branch)) as Hnn.
  rewrite Hscan in Hloc, Hmin, Hnn. simpl in Hloc, Hmin, Hnn.
  exists branch, s, e. repeat (split; [assumption|]). exact Hloc.
Qed.

Lemma evalBranch_nan_coords DT decoded startPoint span branch :
  isNaN (parseFloat rt (BranchRow.Lat branch)) = true \/
  isNaN (parseFloat rt (BranchRow.Lng branch)) = true ->
  evalBranch rt DT decoded startPoint span branch = None.
Proof.
  intros H. unfold evalBranch, branchCoords. simpl.
  destruct H as [-> | ->]; [reflexivity|]. by rewrite orb_true_r.
Qed.

Lemma findNearby_drop_row DT encoded before after c :
  (forall decoded startPoint span,
     evalBranch rt DT decoded startPoint span c = None) ->
  findNearbyBranchesFromPolyline rt DT encoded (before ++ c :: after) =
  findNearbyBranchesFromPolyline rt DT encoded (before ++ after).
Proof.
  intros Hnone. unfold findNearbyBranchesFromPolyline.
  destruct (length (decodePath rt encoded) <? 2)%nat; [reflexivity|].
  destruct (head (decodePath rt encoded)), (last (decodePath rt encoded));
    try reflexivity.
  rewrite !omap_app. simpl. rewrite Hnone. reflexivity.
Qed.

(** X3. A branch row whose latitude or longitude does not parse to a number
    is skipped, whatever the route and the threshold are: the list returned
    is the one returned without the row, and the row alone yields the empty
    list. *)
Theorem unparsed_coordinates_skipped (DISTANCE_THRESHOLD : float)
    (encoded : string) (before after : list BranchRow.t) (c : BranchRow.t) :
  isNaN (parseFloat rt (BranchRow.Lat c)) = true \/
  isNaN (parseFloat rt (BranchRow.Lng c)) = true ->
  findNearbyBranchesFromPolyline rt DISTANCE_THRESHOLD encoded
    (before ++ c :: after) =
  findNearbyBranchesFromPolyline rt DISTANCE_THRESHOLD encoded
    (before ++ after) /\
  findNearbyBranchesFromPolyline rt DISTANCE_THRESHOLD encoded [c] = [].
Proof.
  intros Hnan.
  assert (Hnone : forall decoded startPoint span,
            evalBranch rt DISTANCE_THRESHOLD decoded startPoint span c = None)
    by (intros; by apply evalBranch_nan_coords).
  split; [by apply findNearby_drop_row|].
  rewrite (findNearby_drop_row _ _ [] [] c Hnone). simpl.
  unfold findNearbyBranchesFromPolyline.
  destruct (length (decodePath rt encoded) <? 2)%nat; [reflexivity|].
  destruct (head (decodePath rt encoded)), (last (decodePath rt encoded));
    reflexivity.
Qed.

Lemma omap_names_sublist {A B} (f : A -> option B) (na : A -> string)
    (nb : B -> string) (l : list A) :
  (forall x y, f x = Some y -> nb y = na x) ->
  sublist (map nb (omap f l)) (map na l).
Proof.
  intros Hf. induction l as [|x l IH]; simpl; [constructor|].
  destruct (f x) as [y|] eqn:E; simpl.
  - rewrite (Hf _ _ E). by constructor.
  - by constructor.
Qed.

(** X4. The filter keeps the order of the branch rows and yields at most
    one result per row: the names of the results are a sublist of the names
    of the rows, so there are no more results than rows. *)
Theorem nearby_results_in_row_order (DISTANCE_THRESHOLD : float)
    (encoded : string) (branches : list BranchRow.t) :
  sublist
    (map NearbyBranchResult.Name
       (findNearbyBranchesFromPolyline rt DISTANCE_THRESHOLD encoded branches))
    (map BranchRow.Name branches) /\
  (length (findNearbyBranchesFromPolyline rt DISTANCE_THRESHOLD encoded
             branches) <= length branches)%nat.
Proof.
  assert (H : sublist
            (map NearbyBranchResult.Name
               (findNearbyBranchesFromPolyline rt DISTANCE_THRESHOLD encoded
                  branches))
            (map BranchRow.Name branches)).
  { unfold findNearbyBranchesFromPolyline.
    destruct (length (decodePath rt encoded) <? 2)%nat;
      [apply sublist_nil_l|].
    destruct (head (decodePath rt encoded)), (last (decodePath rt encoded));
      try apply sublist_nil_l.
    apply omap_names_sublist. intros x y Hxy.
    by apply evalBranch_Some in Hxy as [? _]. }
  split; [exact H|].
  apply sublist_length in H. by rewrite !length_map in H.
Qed.

Lemma omap_pointwise {A B} (f g : A -> option B) (l : list A) :
  (forall x, f x = g x) -> omap f l = omap g l.
Proof.
  intros H. induction l as [|x l IH]; [reflexivity|].
  simpl. rewrite H. destruct (g x); [f_equal|]; exact IH.
Qed.

Lemma evalBranch_no_lateral_bound DT decoded startPoint span branch :
  isNaN DT = true \/ DT = infinity ->
  evalBranch rt DT decoded startPoint span branch =
  evalBranch rt infinity decoded startPoint span branch.
Proof.
  intros H. unfold evalBranch.
  destruct (isNaN _ || isNaN _); [reflexivity|].
  destruct (gt _ (span * c0_6)); [reflexivity|].
  destruct (scanRoute rt decoded (branchCoords rt branch)) as [minDist minLoc].
  unfold gt. rewrite infinity_ltb.
  destruct H as [Hn | ->]; [|by rewrite infinity_ltb].
  destruct (DT <? minDist)%float eqn:E; [|reflexivity].
  apply ltb_not_nan in E as [E _]. congruence.
Qed.

(** X5. A lateral threshold that is [NaN] bounds nothing: the filter then
    returns what it returns for the threshold [Infinity], which contains (in
    order) the list returned for any other threshold. *)
Theorem nan_threshold_bounds_nothing (DISTANCE_THRESHOLD : float)
    (encoded : string) (branches : list BranchRow.t) :
  isNaN DISTANCE_THRESHOLD = true ->
  findNearbyBranchesFromPolyline rt DISTANCE_THRESHOLD encoded branches =
  findNearbyBranchesFromPolyline rt infinity encoded branches /\
  forall other,
    sublist (findNearbyBranchesFromPolyline rt other encoded branches)
      (findNearbyBranchesFromPolyline rt DISTANCE_THRESHOLD encoded branches).
Proof.
  intros Hnan.
  assert (Heq : forall T, isNaN T = true \/ T = infinity ->
            findNearbyBranchesFromPolyline rt T encoded branches =
            findNearbyBranchesFromPolyline rt infinity encoded branches).
  { intros T HT. unfold findNearbyBranchesFromPolyline.
    destruct (length (decodePath rt encoded) <? 2)%nat; [reflexivity|].
    destruct (head (decodePath rt encoded)), (last (decodePath rt encoded));
      try reflexivity.
    apply omap_pointwise. intros branch.
    by apply evalBranch_no_lateral_bound. }
  split; [apply Heq; by left|].
  intros other. rewrite (Heq DISTANCE_THRESHOLD) by (by left).
  destruct (isNaN other) eqn:Ho.
  - rewrite (Heq other) by (by left). reflexivity.
  - apply findNearby_mono. apply not_ltb_leb; [reflexivity | exact Ho |].
    apply infinity_ltb.
Qed.

End NearbyResults.

(** ** Rows under one key, and where a candidate comes from *)

Section Indexes.

Context (rt : Runtime).

Import JsNumber JsString FloatFacts StringFacts.

Lemma nearbyMap_fold_last (l : list NearbyBranchResult.t)
    (m0 : gmap string NearbyBranchResult.t) k :
  fold_left (fun m b => <[NearbyBranchResult.Name b := b]> m) l m0 !! k =
  match
    last (List.filter (fun b => bool_decide (NearbyBranchResult.Name b = k)) l)
  with
  | Some b => Some b
  | None => m0 !! k
  end.
Proof.
  revert m0. induction l as [|b l IH]; intros m0; [reflexivity|].
  simpl. rewrite IH. case_bool_decide as Hk.
  - rewrite last_cons. destruct (last _); [reflexivity|].
    by rewrite <- Hk, lookup_insert_eq.
  - destruct (last _); [reflexivity|]. by rewrite lookup_insert_ne.
Qed.

(** X6. In the map of nearby branches a name stands for the last result
    under that name: results under one name replace each other, and a name
    with no result is absent. *)
Theorem nearby_map_last_result_wins
    (nearbyBranches : list NearbyBranchResult.t) (k : string) :
  nearbyMap_of nearbyBranches !! k =
  last
    (List.filter (fun b => bool_decide (NearbyBranchResult.Name b = k))
       nearbyBranches).
Proof.
  unfold nearbyMap_of. rewrite nearbyMap_fold_last.
  destruct (last _); [reflexivity | apply lookup_empty].
Qed.

Lemma ev_fold_last RT cars (m0 : gmap string EvEntry.t) k :
  fold_left
    (fun m car =>
       if isHighRangeEv rt RT car
       then <[trim (CarRow.id car) := entryOf rt car]> m else m) cars m0 !! k
  = match
      last
        (List.filter
           (fun car =>
              isHighRangeEv rt RT car &&
              bool_decide (trim (CarRow.id car) = k)) cars)
    with
    | Some car => Some (entryOf rt car)
    | None => m0 !! k
    end.
Proof.
  revert m0. induction cars as [|car cars IH]; intros m0; [reflexivity|].
  simpl. rewrite IH. destruct (isHighRangeEv rt RT car); simpl; [|reflexivity].
  case_bool_decide as Hk.
  - rewrite last_cons. destruct (last _); [reflexivity|].
    by rewrite <- Hk, lookup_insert_eq.
  - destruct (last _); [reflexivity|]. by rewrite lookup_insert_ne.
Qed.

(** X7. In the index of eligible EVs an id stands for the last eligible car
    row whose trimmed id it is: that row gives the trips of the candidates
    built from the id. *)
Theorem ev_index_last_car_wins (RANGE_THRESHOLD : float)
    (cars : list CarRow.t) (k : string) :
  highRangeEvMap_of rt RANGE_THRESHOLD cars !! k =
  entryOf rt <$>
    last
      (List.filter
         (fun car =>
            isHighRangeEv rt RANGE_THRESHOLD car &&
            bool_decide (trim (CarRow.id car) = k)) cars).
Proof.
  unfold highRangeEvMap_of. rewrite ev_fold_last.
  destruct (last _); [reflexivity | apply lookup_empty].
Qed.

Lemma contribution_elem_ev nm m branch c :
  c ∈ contribution rt nm m branch ->
  exists ev,
    ev ∈ parseStringArray rt (BranchRow.cars branch) /\
    isEvId ev = true /\ Candidate.ev_id c = trim ev /\
    is_Some (m !! trim ev).
Proof.
  unfold contribution, branchesWithEVs_of. simpl.
  destruct (hasNearbyEv rt nm branch); simpl; [|by intros ?%elem_of_nil].
  unfold withEVs. destruct (nm !! BranchRow.Name branch) as [info|];
    simpl; [|by intros ?%elem_of_nil].
  rewrite app_nil_r. unfold candidatesOfBranch. simpl.
  intros Hin. apply list_elem_of_omap in Hin as (ev & Hev & Hc).
  apply list_elem_of_In, filter_In in Hev as [Hev Hisev].
  apply list_elem_of_In in Hev.
  unfold candidateOf in Hc. destruct (m !! trim ev) eqn:E; [|discriminate].
  simpl in Hc. injection Hc as <-. exists ev. simpl. eauto.
Qed.

Lemma candidates_for_elem branches cars DT RT encoded c :
  c ∈ candidates_for rt branches cars DT RT encoded <->
  exists branch, branch ∈ branches /\
    c ∈ contribution rt (nearbyMap_for rt branches DT encoded)
          (highRangeEvMap_of rt RT cars) branch.
Proof.
  unfold candidates_for. rewrite candidates_decompose.
  rewrite list_elem_of_In, in_flat_map.
  split; intros (branch & Hb & Hc); exists branch;
    by rewrite ?list_elem_of_In in *.
Qed.

(** X8. Every candidate of the call comes from a branch row: it carries the
    name and the parsed coordinates of the row; the id of its EV is the
    trimmed form of an id listed in the row and starts with E; its distance
    to the route and its nearest point are those of a result of the
    route-proximity filter under the name of the row, the one the map of
    nearby branches holds. *)
Theorem candidates_come_from_rows (branches : list BranchRow.t)
    (cars : list CarRow.t) (DISTANCE_THRESHOLD RANGE_THRESHOLD : float)
    (encoded : string) :
  Forall
    (fun c =>
       exists branch ev info,
         branch ∈ branches /\
         Candidate.branch c = BranchRow.Name branch /\
         Candidate.lat c = parseFloat rt (BranchRow.Lat branch) /\
         Candidate.lng c = parseFloat rt (BranchRow.Lng branch) /\
         ev ∈ parseStringArray rt (BranchRow.cars branch) /\
         Candidate.ev_id c = trim ev /\
         startsWith "E" (Candidate.ev_id c) = true /\
         info ∈ findNearbyBranchesFromPolyline rt DISTANCE_THRESHOLD encoded
                  branches /\
         nearbyMap_for rt branches DISTANCE_THRESHOLD encoded
           !! BranchRow.Name branch = Some info /\
         NearbyBranchResult.Name info = BranchRow.Name branch /\
         Candidate.distanceToRoute_meters c =
           NearbyBranchResult.distanceToRoute_meters info /\
         Candidate.minDistanceLocation c =
           NearbyBranchResult.minDistanceLocation info)
    (candidates_for rt branches cars DISTANCE_THRESHOLD RANGE_THRESHOLD
       encoded).
Proof.
  apply Forall_forall. intros c Hc.
  apply candidates_for_elem in Hc as (branch & Hb & Hc).
  pose proof (contribution_branch _ _ _ _ _ Hc) as Hname.
  pose proof (contribution_elem_ev _ _ _ _ Hc) as (ev & Hev & Hisev & Hid & _).
  apply contribution_elem in Hc as (info & Hinfo & Hco & Hd & Hl).
  injection Hco as Hlat Hlng.
  pose proof (nearbyMap_lookup _ _ _ Hinfo) as [Hin Hn].
  exists branch, ev, info. rewrite Hid. unfold isEvId in Hisev.
  repeat (split; [assumption || reflexivity|]). assumption.
Qed.

End Indexes.

(** ** Bookings and the availability filter *)

Section Availability.

Context (rt : Runtime).

Import JsNumber JsString FloatFacts StringFacts.

Lemma bookTrip_cases bookedMap trip :
  (bookTrip rt bookedMap trip = bookedMap /\
   forall id d, ~ bookedOn rt [trip] id d) \/
  exists ts,
    trim (TripRow.car_id trip) <> ""%string /\
    or_else (trim <$> TripRow.departure_time trip)
            (trim <$> TripRow.arrival_time trip) = Some ts /\
    ts <> ""%string /\ is_Some (Date_parse rt ts).
Proof.
  assert (Hone : forall id d, bookedOn rt [trip] id d ->
            exists ts,
              trim (TripRow.car_id trip) <> ""%string /\
              or_else (trim <$> TripRow.departure_time trip)
                      (trim <$> TripRow.arrival_time trip) = Some ts /\
              ts <> ""%string /\ is_Some (Date_parse rt ts)).
  { intros id d (t & ts & Ht & Hid & Hne & Hts & Htne & Hp & _).
    apply list_elem_of_singleton in Ht as ->. subst id. eauto. }
  destruct (decide (trim (TripRow.car_id trip) = ""%string)) as [Hid|Hid].
  { left. split; [by apply bookTrip_skips_no_id|].
    intros id d (ts & ? & _)%Hone. contradiction. }
  destruct (or_else (trim <$> TripRow.departure_time trip)
                    (trim <$> TripRow.arrival_time trip)) as [ts|] eqn:Hts.
  2:{ left. split; [apply bookTrip_skips_absent; by rewrite Hts|].
      intros id d (ts & _ & ? & _)%Hone. discriminate. }
  destruct (decide (ts = ""%string)) as [->|Htne].
  { left. split; [apply bookTrip_skips_absent; by rewrite Hts|].
    intros id d (ts & _ & [= <-] & ? & _)%Hone. contradiction. }
  destruct (Date_parse rt ts) as [tv|] eqn:Hp.
  - right. exists ts. rewrite Hp. eauto.
  - left. split; [by eapply bookTrip_skips_unparseable|].
    intros id d (ts' & _ & [= <-] & _ & [tv Htv])%Hone. congruence.
Qed.

Lemma bookTrip_elem bookedMap trip id d :
  d ∈ default [] (bookTrip rt bookedMap trip !! id) <->
  d ∈ default [] (bookedMap !! id) \/ bookedOn rt [trip] id d.
Proof.
  destruct (bookTrip_cases bookedMap trip)
    as [[-> Hno]|(ts & Hid & Hts & Htne & Hp)].
  { split; [by left|]. intros [H|H]; [exact H | by apply Hno in H]. }
  rewrite (bookTrip_books rt _ _ _ Hid Hts Htne Hp).
  assert (Hon : forall i x, bookedOn rt [trip] i x <->
            i = trim (TripRow.car_id trip) /\
            x = toLocalDate rt (DateString ts)).
  { intros i x. split.
    - intros (t & ts' & Ht & Hi & _ & Hts' & _ & _ & Hx).
      apply list_elem_of_singleton in Ht as ->.
      rewrite Hts in Hts'. injection Hts' as <-. auto.
    - intros [-> ->]. exists trip, ts. split; [left|]. auto 7. }
  rewrite Hon.
  destruct (decide (trim (TripRow.car_id trip) = id)) as [<-|Hk].
  - rewrite lookup_insert_eq. simpl. rewrite elem_of_app.
    rewrite list_elem_of_singleton. tauto.
  - rewrite lookup_insert_ne by exact Hk. split; [by left|].
    intros [H|[-> _]]; [exact H | contradiction].
Qed.

Lemma bookedOn_cons trip trips id d :
  bookedOn rt (trip :: trips) id d <->
  bookedOn rt [trip] id d \/ bookedOn rt trips id d.
Proof.
  unfold bookedOn. split.
  - intros (t & ts & [->|Ht]%elem_of_cons & H).
    + left. exists trip, ts. split; [left | exact H].
    + right. eauto.
  - intros [(t & ts & Ht & H)|(t & ts & Ht & H)]; exists t, ts.
    + apply list_elem_of_singleton in Ht as ->. split; [left | exact H].
    + split; [by right | exact H].
Qed.

Lemma bookedMap_fold_elem trips bookedMap id d :
  d ∈ default [] (fold_left (bookTrip rt) trips bookedMap !! id) <->
  d ∈ default [] (bookedMap !! id) \/ bookedOn rt trips id d.
Proof.
  revert bookedMap. induction trips as [|t trips IH]; intros m; simpl.
  - split; [by left|]. intros [H|(t & ts & Ht & _)]; [exact H|].
    by apply elem_of_nil in Ht.
  - rewrite IH, bookTrip_elem, (bookedOn_cons t trips). tauto.
Qed.

Lemma bookedMap_elem trips id d :
  d ∈ default [] (bookedMap_of rt trips !! id) <-> bookedOn rt trips id d.
Proof.
  unfold bookedMap_of. rewrite bookedMap_fold_elem, lookup_empty. simpl.
  split; [|by right]. intros [H|H]; [by apply elem_of_nil in H | exact H].
Qed.

(** X9. The booked-date index holds, under an id, exactly the local dates
    of the trip rows that name that id (trimmed, not blank) and whose chosen
    time (the departure time, else the arrival time) parses; nothing else
    enters the index. *)
Theorem booked_dates_exact (trips : list TripRow.t) (id d : string) :
  d ∈ default [] (bookedMap_of rt trips !! id) <-> bookedOn rt trips id d.
Proof. apply bookedMap_elem. Qed.

Lemma isFree_spec trips desiredDate c :
  isFree (bookedMap_of rt trips) desiredDate c = true <->
  ~ bookedOn rt trips (Candidate.ev_id c) desiredDate.
Proof.
  unfold isFree. rewrite negb_true_iff, <- not_true_iff_false, includes_In.
  by rewrite <- list_elem_of_In, bookedMap_elem.
Qed.

Lemma freeCandidates_elem branches cars trips DT RT TIME encoded c :
  c ∈ freeCandidates_for rt branches cars trips DT RT TIME encoded <->
  c ∈ candidates_for rt branches cars DT RT encoded /\
  ~ bookedOn rt trips (Candidate.ev_id c) (toLocalDate rt TIME).
Proof.
  unfold freeCandidates_for.
  by rewrite list_elem_of_In, filter_In, <- list_elem_of_In, isFree_spec.
Qed.

(** X10. The availability filter keeps exactly the candidates whose EV has
    no booking on the local date of the target time, and keeps them in the
    order of the candidate list: a candidate is dropped only for a booking
    of its own EV on that very date. *)
Theorem free_iff_not_booked_that_day (branches : list BranchRow.t)
    (cars : list CarRow.t) (trips : list TripRow.t)
    (DISTANCE_THRESHOLD RANGE_THRESHOLD : float) (TIME : DateInput)
    (encoded : string) :
  (forall c,
     c ∈ freeCandidates_for rt branches cars trips DISTANCE_THRESHOLD
           RANGE_THRESHOLD TIME encoded <->
     c ∈ candidates_for rt branches cars DISTANCE_THRESHOLD RANGE_THRESHOLD
           encoded /\
     ~ bookedOn rt trips (Candidate.ev_id c) (toLocalDate rt TIME)) /\
  sublist
    (freeCandidates_for rt branches cars trips DISTANCE_THRESHOLD
       RANGE_THRESHOLD TIME encoded)
    (candidates_for rt branches cars DISTANCE_THRESHOLD RANGE_THRESHOLD
       encoded).
Proof.
  split; [intros c; apply freeCandidates_elem|].
  unfold freeCandidates_for.
  induction (candidates_for rt branches cars DISTANCE_THRESHOLD
               RANGE_THRESHOLD encoded) as [|c l IH]; simpl; [constructor|].
  destruct (isFree _ _ c); by constructor.
Qed.

Lemma filter_pointwise {A} (f g : A -> bool) (l : list A) :
  (forall x, x ∈ l -> f x = g x) -> List.filter f l = List.filter g l.
Proof.
  induction l as [|x l IH]; intros H; [reflexivity|]. simpl.
  rewrite (H x) by left. rewrite IH by (intros y Hy; apply H; by right).
  reflexivity.
Qed.

Lemma filter_sublist_impl {A} (f g : A -> bool) (l : list A) :
  (forall x, f x = true -> g x = true) ->
  sublist (List.filter f l) (List.filter g l).
Proof.
  intros H. induction l as [|x l IH]; simpl; [constructor|].
  destruct (f x) eqn:E.
  - rewrite (H x E). by constructor.
  - destruct (g x); [by constructor | exact IH].
Qed.

Lemma isFree_same_bookings trips trips' desiredDate c :
  (bookedOn rt trips (Candidate.ev_id c) desiredDate <->
   bookedOn rt trips' (Candidate.ev_id c) desiredDate) ->
  isFree (bookedMap_of rt trips) desiredDate c =
  isFree (bookedMap_of rt trips') desiredDate c.
Proof.
  intros H.
  pose proof (isFree_spec trips desiredDate c) as H1.
  pose proof (isFree_spec trips' desiredDate c) as H2.
  destruct (isFree (bookedMap_of rt trips) desiredDate c),
           (isFree (bookedMap_of rt trips') desiredDate c);
    try reflexivity; exfalso.
  - assert (Hn : ~ bookedOn rt trips (Candidate.ev_id c) desiredDate)
      by (by apply H1).
    rewrite H in Hn. apply H2 in Hn. discriminate.
  - assert (Hn : ~ bookedOn rt trips' (Candidate.ev_id c) desiredDate)
      by (by apply H2).
    rewrite <- H in Hn. apply H1 in Hn. discriminate.
Qed.

Lemma bookedOn_subset trips trips' id d :
  (forall t, t ∈ trips -> t ∈ trips') ->
  bookedOn rt trips id d -> bookedOn rt trips' id d.
Proof.
  intros Hsub (t & ts & Ht & H). exists t, ts. split; [by apply Hsub | exact H].
Qed.

(** X21. The trip rows count as a set: two lists of trip rows with the same
    rows, in any order and with any repetition, give the same free
    candidates and the same outcome of the call. *)
Theorem trip_rows_order_irrelevant (branches : list BranchRow.t)
    (cars : list CarRow.t) (trips trips' : list TripRow.t)
    (DISTANCE_THRESHOLD RANGE_THRESHOLD : float) (TIME : DateInput)
    (encoded : string) :
  (forall t, t ∈ trips <-> t ∈ trips') ->
  freeCandidates_for rt branches cars trips DISTANCE_THRESHOLD RANGE_THRESHOLD
    TIME encoded =
  freeCandidates_for rt branches cars trips' DISTANCE_THRESHOLD
    RANGE_THRESHOLD TIME encoded /\
  getBestBranchWithAvailableEV rt branches cars trips DISTANCE_THRESHOLD
    RANGE_THRESHOLD TIME encoded =
  getBestBranchWithAvailableEV rt branches cars trips' DISTANCE_THRESHOLD
    RANGE_THRESHOLD TIME encoded.
Proof.
  intros Hsame.
  assert (Hfree : freeCandidates_for rt branches cars trips DISTANCE_THRESHOLD
                    RANGE_THRESHOLD TIME encoded =
                  freeCandidates_for rt branches cars trips'
                    DISTANCE_THRESHOLD RANGE_THRESHOLD TIME encoded).
  { unfold freeCandidates_for. apply filter_pointwise. intros c _.
    apply isFree_same_bookings.
    split; apply bookedOn_subset; intros t; apply Hsame. }
  split; [exact Hfree|]. by rewrite !getBest_unfold, Hfree.
Qed.

(** X22. More trip rows never free a candidate: the free candidates for a
    longer list of trip rows are, in order, among the free candidates for
    the shorter one; when the shorter list leaves no free candidate, so
    does the longer, and the call returns [null]. *)
Theorem more_bookings_free_nothing (branches : list BranchRow.t)
    (cars : list CarRow.t) (trips more : list TripRow.t)
    (DISTANCE_THRESHOLD RANGE_THRESHOLD : float) (TIME : DateInput)
    (encoded : string) :
  sublist
    (freeCandidates_for rt branches cars (trips ++ more) DISTANCE_THRESHOLD
       RANGE_THRESHOLD TIME encoded)
    (freeCandidates_for rt branches cars trips DISTANCE_THRESHOLD
       RANGE_THRESHOLD TIME encoded) /\
  (getBestBranchWithAvailableEV rt branches cars trips DISTANCE_THRESHOLD
     RANGE_THRESHOLD TIME encoded = Returns None ->
   getBestBranchWithAvailableEV rt branches cars (trips ++ more)
     DISTANCE_THRESHOLD RANGE_THRESHOLD TIME encoded = Returns None).
Proof.
  assert (Hsub : sublist
            (freeCandidates_for rt branches cars (trips ++ more)
               DISTANCE_THRESHOLD RANGE_THRESHOLD TIME encoded)
            (freeCandidates_for rt branches cars trips DISTANCE_THRESHOLD
               RANGE_THRESHOLD TIME encoded)).
  { unfold freeCandidates_for. apply filter_sublist_impl. intros c.
    rewrite !isFree_spec. intros Hn Hb. apply Hn.
    eapply bookedOn_subset; [|exact Hb]. intros t Ht. apply elem_of_app.
    by left. }
  split; [exact Hsub|].
  rewrite !getBest_unfold. intros Hnone.
  pose proof (selectBest_cases rt
    (freeCandidates_for rt branches cars trips DISTANCE_THRESHOLD
       RANGE_THRESHOLD TIME encoded)) as Hc.
  rewrite Hnone in Hc. rewrite Hc in Hsub.
  apply sublist_nil_r in Hsub. by rewrite Hsub.
Qed.

End Availability.

(** ** Local dates as strings *)

Section LocalDates.

Context (rt : Runtime).

Import JsNumber JsString FloatFacts StringFacts.

Local Open Scope string_scope.

Lemma pretty_N_go_first x s : not_N_first s -> not_N_first (pretty_N_go x s).
Proof.
  revert s. induction (N.lt_wf_0 x) as [x _ IH]; intros s Hs.
  assert (x = 0 \/ 0 < x)%N as [->|Hx] by lia.
  - by rewrite pretty_N_go_0.
  - rewrite pretty_N_go_step by done. apply IH.
    { by apply N.div_lt. }
    eexists _, _. split; [reflexivity|].
    unfold pretty_N_char. by repeat case_match.
Qed.

Lemma pretty_Z_first (z : Z) : not_N_first (pretty z).
Proof.
  destruct z as [|p|p].
  - by exists "0"%char, "".
  - change (pretty (Z.pos p)) with (pretty (N.pos p)).
    unfold pretty, pretty_N. rewrite decide_False by done.
    rewrite pretty_N_go_step by lia. apply pretty_N_go_first.
    eexists _, _. split; [reflexivity|].
    unfold pretty_N_char. by repeat case_match.
  - by eexists "-"%char, _.
Qed.

Lemma toLocalDate_valid_first date tv :
  new_Date rt date = Some tv -> not_N_first (toLocalDate rt date).
Proof.
  intros Hd. unfold toLocalDate. rewrite Hd. simpl.
  destruct (pretty_Z_first (Date_getFullYear rt tv)) as (c & r & -> & Hc).
  simpl. eexists _, _. split; [reflexivity | exact Hc].
Qed.

Lemma toLocalDate_invalid date :
  new_Date rt date = None -> toLocalDate rt date = "NaN-NaN-NaN".
Proof. intros Hd. unfold toLocalDate. rewrite Hd. reflexivity. Qed.

Lemma filter_all {A} (f : A -> bool) (l : list A) :
  (forall x, x ∈ l -> f x = true) -> List.filter f l = l.
Proof.
  induction l as [|x l IH]; intros H; [reflexivity|]. simpl.
  rewrite (H x) by left. f_equal. apply IH. intros y Hy. apply H. by right.
Qed.

(** X11. A target time that is not a valid date is formatted as
    NaN-NaN-NaN, which is the date of no booking: the availability filter
    then drops nothing, and the free candidates are all the candidates. *)
Theorem invalid_target_date_frees_all (branches : list BranchRow.t)
    (cars : list CarRow.t) (trips : list TripRow.t)
    (DISTANCE_THRESHOLD RANGE_THRESHOLD : float) (TIME : DateInput)
    (encoded : string) :
  new_Date rt TIME = None ->
  toLocalDate rt TIME = "NaN-NaN-NaN" /\
  (forall id, ~ bookedOn rt trips id (toLocalDate rt TIME)) /\
  freeCandidates_for rt branches cars trips DISTANCE_THRESHOLD RANGE_THRESHOLD
    TIME encoded =
  candidates_for rt branches cars DISTANCE_THRESHOLD RANGE_THRESHOLD encoded.
Proof.
  intros Hd. pose proof (toLocalDate_invalid TIME Hd) as Hnan.
  assert (Hno : forall id, ~ bookedOn rt trips id (toLocalDate rt TIME)).
  { intros id (t & ts & _ & _ & _ & _ & _ & [tv Htv] & Hdate).
    destruct (toLocalDate_valid_first (DateString ts) tv Htv)
      as (c & r & Hs & Hc).
    rewrite Hdate, Hnan in Hs. injection Hs as <- _. by apply Hc. }
  split; [exact Hnan|]. split; [exact Hno|].
  unfold freeCandidates_for. apply filter_all. intros c _.
  apply isFree_spec, Hno.
Qed.

(** *** Equal strings, equal days *)

Lemma string_app_length (s t : string) :
  String.length (s ++ t) = (String.length s + String.length t)%nat.
Proof. induction s as [|c s IH]; simpl; [reflexivity | by rewrite IH]. Qed.

Lemma string_app_inj_tail (s1 s2 t1 t2 : string) :
  String.length t1 = String.length t2 ->
  s1 ++ t1 = s2 ++ t2 -> s1 = s2 /\ t1 = t2.
Proof.
  intros Hlen. revert s2. induction s1 as [|c s1 IH]; intros [|c' s2] H.
  - auto.
  - apply (f_equal String.length) in H.
    rewrite !string_app_length in H. simpl in H. lia.
  - apply (f_equal String.length) in H.
    rewrite !string_app_length in H. simpl in H. lia.
  - injection H as -> H. apply IH in H as [-> ->]. auto.
Qed.

Lemma pad2_table :
  forallb
    (fun k =>
       (String.length (pad2 k) =? 2)%nat &&
       forallb (fun k' => implb (String.eqb (pad2 k) (pad2 k')) (k =? k')%Z)
         (seqZ 0 100))
    (seqZ 0 100) = true.
Proof. vm_compute. reflexivity. Qed.

Lemma pad2_length k : (0 <= k < 100)%Z -> String.length (pad2 k) = 2%nat.
Proof.
  intros Hk. pose proof pad2_table as H. rewrite forallb_forall in H.
  specialize (H k). rewrite andb_true_iff, Nat.eqb_eq in H.
  apply H, list_elem_of_In, elem_of_seqZ. lia.
Qed.

Lemma pad2_inj k k' :
  (0 <= k < 100)%Z -> (0 <= k' < 100)%Z -> pad2 k = pad2 k' -> k = k'.
Proof.
  intros Hk Hk' Heq. pose proof pad2_table as H.
  rewrite forallb_forall in H. specialize (H k).
  rewrite andb_true_iff, forallb_forall in H.
  destruct H as [_ H]; [apply list_elem_of_In, elem_of_seqZ; lia|].
  assert (Hin : In k' (seqZ 0 100))
    by (apply list_elem_of_In, elem_of_seqZ; lia).
  apply H in Hin. rewrite Heq, String.eqb_refl in Hin.
  apply Z.eqb_eq. exact Hin.
Qed.

Lemma toLocalDate_fields tv :
  toLocalDate rt (DateObject (Some tv)) =
  pretty (Date_getFullYear rt tv) ++
  String "-" (pad2 (Date_getMonth rt tv + 1) ++
              String "-" (pad2 (Date_getDate rt tv))).
Proof. reflexivity. Qed.

(** X12. For two valid times whose month and day of the month are in their
    calendar ranges, the formatted dates are equal exactly when the year,
    the month and the day of the month are equal: comparing the strings is
    comparing the local calendar days. *)
Theorem same_date_string_same_day (tv tv' : Z) :
  (0 <= Date_getMonth rt tv <= 11)%Z -> (1 <= Date_getDate rt tv <= 31)%Z ->
  (0 <= Date_getMonth rt tv' <= 11)%Z -> (1 <= Date_getDate rt tv' <= 31)%Z ->
  toLocalDate rt (DateObject (Some tv)) = toLocalDate rt (DateObject (Some tv'))
  <->
  Date_getFullYear rt tv = Date_getFullYear rt tv' /\
  Date_getMonth rt tv = Date_getMonth rt tv' /\
  Date_getDate rt tv = Date_getDate rt tv'.
Proof.
  intros Hm Hd Hm' Hd'. rewrite !toLocalDate_fields. split.
  - intros H.
    apply string_app_inj_tail in H as [Hy H].
    2:{ simpl. rewrite !string_app_length. simpl.
        rewrite !pad2_length by lia. reflexivity. }
    injection H as H.
    apply string_app_inj_tail in H as [Hmm Hdd].
    2:{ simpl. rewrite !pad2_length by lia. reflexivity. }
    injection Hdd as Hdd.
    apply pad2_inj in Hmm; [|lia..]. apply pad2_inj in Hdd; [|lia..].
    apply (inj pretty) in Hy. split; [exact Hy|]. split; [lia | exact Hdd].
  - intros (-> & -> & ->). reflexivity.
Qed.

End LocalDates.

(** ** How the call ends *)

Section Outcomes.

Context (rt : Runtime).

Import JsNumber JsString FloatFacts StringFacts.

Lemma nearby_has_point DT encoded branches info :
  (DT <? infinity)%float = true ->
  info ∈ findNearbyBranchesFromPolyline rt DT encoded branches ->
  is_Some (NearbyBranchResult.minDistanceLocation info).
Proof.
  intros HT Hin.
  apply findNearby_elem in Hin as (branch & _ & _ & Hscan & Hgt).
  pose proof (scanRoute_spec rt (decodePath rt encoded)
                (branchCoords rt branch)) as [Hloc _].
  rewrite Hscan in Hloc. simpl in Hloc.
  destruct (NearbyBranchResult.minDistanceLocation info); [eauto|].
  rewrite Hloc in Hgt. unfold gt in Hgt. congruence.
Qed.

Lemma candidate_nearby branches cars DT RT encoded c :
  c ∈ candidates_for rt branches cars DT RT encoded ->
  exists info,
    info ∈ findNearbyBranchesFromPolyline rt DT encoded branches /\
    Candidate.distanceToRoute_meters c =
      NearbyBranchResult.distanceToRoute_meters info /\
    Candidate.minDistanceLocation c =
      NearbyBranchResult.minDistanceLocation info.
Proof.
  intros Hc. apply candidates_for_elem in Hc as (branch & _ & Hc).
  apply contribution_elem in Hc as (info & Hinfo & _ & Hd & Hl).
  apply nearbyMap_lookup in Hinfo as [Hin _]. eauto.
Qed.

Lemma candidates_have_point branches cars DT RT encoded c :
  (DT <? infinity)%float = true ->
  c ∈ candidates_for rt branches cars DT RT encoded ->
  is_Some (Candidate.minDistanceLocation c).
Proof.
  intros HT Hc. apply candidate_nearby in Hc as (info & Hin & _ & ->).
  eapply nearby_has_point; eassumption.
Qed.

Lemma getBest_returns branches cars trips DT RT TIME encoded :
  (forall c,
     c ∈ freeCandidates_for rt branches cars trips DT RT TIME encoded ->
     is_Some (Candidate.minDistanceLocation c)) ->
  exists o,
    getBestBranchWithAvailableEV rt branches cars trips DT RT TIME encoded
    = Returns o.
Proof.
  intros Hloc. rewrite getBest_unfold.
  pose proof (selectBest_cases rt
    (freeCandidates_for rt branches cars trips DT RT TIME encoded)) as Hc.
  destruct (selectBest rt _) as [o|]; [eauto|].
  destruct Hc as [_ Hnone].
  destruct (mapM_score_total rt _ Hloc) as [scored Hs]. congruence.
Qed.

Lemma finite_threshold_returns branches cars trips DT RT TIME encoded :
  (DT <? infinity)%float = true ->
  exists o,
    getBestBranchWithAvailableEV rt branches cars trips DT RT TIME encoded
    = Returns o.
Proof.
  intros HT. apply getBest_returns. intros c Hc.
  apply freeCandidates_elem in Hc as [Hc _].
  eapply candidates_have_point; eassumption.
Qed.

(** X13. With a lateral threshold below [Infinity] (any finite number), a
    result of the route-proximity filter always has its nearest point, so
    has every candidate, and the call returns: [null] or a branch.  The
    scoring step then never reads the coordinates of a missing point, the
    one way in which the steps after the loading of the rows can fail on
    cells that hold arrays of strings. *)
Theorem finite_threshold_never_throws (branches : list BranchRow.t)
    (cars : list CarRow.t) (trips : list TripRow.t)
    (DISTANCE_THRESHOLD RANGE_THRESHOLD : float) (TIME : DateInput)
    (encoded : string) :
  (DISTANCE_THRESHOLD <? infinity)%float = true ->
  Forall (fun info => is_Some (NearbyBranchResult.minDistanceLocation info))
    (findNearbyBranchesFromPolyline rt DISTANCE_THRESHOLD encoded branches) /\
  Forall (fun c => is_Some (Candidate.minDistanceLocation c))
    (candidates_for rt branches cars DISTANCE_THRESHOLD RANGE_THRESHOLD
       encoded) /\
  exists o,
    getBestBranchWithAvailableEV rt branches cars trips DISTANCE_THRESHOLD
      RANGE_THRESHOLD TIME encoded = Returns o.
Proof.
  intros HT. split; [|split].
  - apply Forall_forall. intros info. by apply nearby_has_point.
  - apply Forall_forall. intros c. by apply candidates_have_point.
  - by apply finite_threshold_returns.
Qed.

Lemma flat_map_nil {A B} (f : A -> list B) (l : list A) :
  (forall x, f x = []) -> flat_map f l = [].
Proof.
  intros H. induction l as [|x l IH]; [reflexivity|].
  simpl. by rewrite H, IH.
Qed.

Lemma no_candidates_returns_null branches cars trips DT RT TIME encoded :
  candidates_for rt branches cars DT RT encoded = [] ->
  getBestBranchWithAvailableEV rt branches cars trips DT RT TIME encoded
  = Returns None.
Proof.
  intros H. rewrite getBest_unfold. unfold freeCandidates_for.
  rewrite H. reflexivity.
Qed.

Lemma no_nearby_no_candidates branches cars DT RT encoded :
  findNearbyBranchesFromPolyline rt DT encoded branches = [] ->
  candidates_for rt branches cars DT RT encoded = [].
Proof.
  intros H. unfold candidates_for. rewrite candidates_decompose.
  apply flat_map_nil. intros branch. apply contribution_None.
  unfold nearbyMap_for. rewrite H. apply lookup_empty.
Qed.

Lemma short_route_no_nearby DT encoded branches :
  (length (polyline_decode rt encoded) < 2)%nat ->
  findNearbyBranchesFromPolyline rt DT encoded branches = [].
Proof.
  intros Hlen. unfold findNearbyBranchesFromPolyline, decodePath.
  rewrite length_map.
  destruct (Nat.ltb_spec (length (polyline_decode rt encoded)) 2); [|lia].
  reflexivity.
Qed.

(** X14. When the route-proximity filter returns no branch, and so for
    every route that decodes to fewer than two points, no candidate is built
    and the call returns no branch.  On the rows of this model (every cars
    cell holds an array of strings or does not parse; on another JSON value
    step 3 fails before any candidate is built) the call returns [null]. *)
Theorem no_nearby_branch_returns_null (branches : list BranchRow.t)
    (cars : list CarRow.t) (trips : list TripRow.t)
    (DISTANCE_THRESHOLD RANGE_THRESHOLD : float) (TIME : DateInput)
    (encoded : string) :
  (findNearbyBranchesFromPolyline rt DISTANCE_THRESHOLD encoded branches = []
   \/ (length (polyline_decode rt encoded) < 2)%nat) ->
  candidates_for rt branches cars DISTANCE_THRESHOLD RANGE_THRESHOLD encoded
    = [] /\
  (forall r,
     getBestBranchWithAvailableEV rt branches cars trips DISTANCE_THRESHOLD
       RANGE_THRESHOLD TIME encoded <> Returns (Some r)) /\
  getBestBranchWithAvailableEV rt branches cars trips DISTANCE_THRESHOLD
    RANGE_THRESHOLD TIME encoded = Returns None.
Proof.
  intros H.
  assert (Hnone : findNearbyBranchesFromPolyline rt DISTANCE_THRESHOLD
                    encoded branches = []).
  { destruct H as [H|H]; [exact H | by apply short_route_no_nearby]. }
  pose proof (no_nearby_no_candidates branches cars _ RANGE_THRESHOLD _ Hnone)
    as Hc.
  pose proof (no_candidates_returns_null branches cars trips _ _ TIME _ Hc)
    as Hnull.
  split; [exact Hc|]. split; [|exact Hnull].
  intros r. rewrite Hnull. discriminate.
Qed.

Lemma ev_fold_none RT cars (m0 : gmap string EvEntry.t) :
  (forall car, car ∈ cars -> isHighRangeEv rt RT car = false) ->
  fold_left
    (fun m car =>
       if isHighRangeEv rt RT car
       then <[trim (CarRow.id car) := entryOf rt car]> m else m) cars m0 = m0.
Proof.
  revert m0. induction cars as [|car cars IH]; intros m0 H; [reflexivity|].
  simpl. rewrite (H car) by left. apply IH. intros c Hc. apply H. by right.
Qed.

Lemma no_eligible_no_candidates branches cars DT RT encoded :
  (forall car, car ∈ cars -> isHighRangeEv rt RT car = false) ->
  highRangeEvMap_of rt RT cars = ∅ /\
  candidates_for rt branches cars DT RT encoded = [].
Proof.
  intros H.
  assert (He : highRangeEvMap_of rt RT cars = ∅) by (by apply ev_fold_none).
  split; [exact He|].
  unfold candidates_for. rewrite candidates_decompose, He.
  apply flat_map_nil. intros branch. apply contribution_no_eligible.
  unfold eligibleIds.
  induction (List.filter isEvId _) as [|ev l IH]; [reflexivity|].
  simpl. rewrite lookup_empty.
  rewrite bool_decide_false by (by intros [? ?]). exact IH.
Qed.

(** X15. When no car row is electric with a range strictly above the range
    threshold, the index of eligible EVs is empty and the call returns no
    branch, whatever the route and the bookings are.  On the rows of this
    model (every cars cell holds an array of strings or does not parse; on
    another JSON value step 3 fails before the index is built) the call
    returns [null]. *)
Theorem no_eligible_car_returns_null (branches : list BranchRow.t)
    (cars : list CarRow.t) (trips : list TripRow.t)
    (DISTANCE_THRESHOLD RANGE_THRESHOLD : float) (TIME : DateInput)
    (encoded : string) :
  (forall car, car ∈ cars ->
     CarRow.type car <> "electric"%string \/
     (RANGE_THRESHOLD <? parseFloat rt (CarRow.range_km car))%float = false) ->
  highRangeEvMap_of rt RANGE_THRESHOLD cars = ∅ /\
  (forall r,
     getBestBranchWithAvailableEV rt branches cars trips DISTANCE_THRESHOLD
       RANGE_THRESHOLD TIME encoded <> Returns (Some r)) /\
  getBestBranchWithAvailableEV rt branches cars trips DISTANCE_THRESHOLD
    RANGE_THRESHOLD TIME encoded = Returns None.
Proof.
  intros H.
  assert (Hno : forall car, car ∈ cars ->
            isHighRangeEv rt RANGE_THRESHOLD car = false).
  { intros car Hin. apply not_true_iff_false. rewrite isHighRangeEv_spec.
    intros [Hty Hr]. destruct (H car Hin); congruence. }
  destruct (no_eligible_no_candidates branches cars DISTANCE_THRESHOLD _
              encoded Hno) as [He Hc].
  pose proof (no_candidates_returns_null branches cars trips _ _ TIME _ Hc)
    as Hnull.
  split; [exact He|]. split; [|exact Hnull].
  intros r. rewrite Hnull. discriminate.
Qed.

(** X16. A range threshold that is [NaN] makes no car eligible: the index
    of eligible EVs is empty and the call returns no branch, for every
    input.  On the rows of this model (every cars cell holds an array of
    strings or does not parse; on another JSON value step 3 fails before the
    index is built) the call returns [null]. *)
Theorem nan_range_threshold_returns_null (branches : list BranchRow.t)
    (cars : list CarRow.t) (trips : list TripRow.t)
    (DISTANCE_THRESHOLD RANGE_THRESHOLD : float) (TIME : DateInput)
    (encoded : string) :
  isNaN RANGE_THRESHOLD = true ->
  highRangeEvMap_of rt RANGE_THRESHOLD cars = ∅ /\
  (forall r,
     getBestBranchWithAvailableEV rt branches cars trips DISTANCE_THRESHOLD
       RANGE_THRESHOLD TIME encoded <> Returns (Some r)) /\
  getBestBranchWithAvailableEV rt branches cars trips DISTANCE_THRESHOLD
    RANGE_THRESHOLD TIME encoded = Returns None.
Proof.
  intros Hnan.
  assert (Hno : forall car, car ∈ cars ->
            isHighRangeEv rt RANGE_THRESHOLD car = false).
  { intros car _. apply not_true_iff_false. rewrite isHighRangeEv_spec.
    intros [_ Hr]. apply ltb_not_nan in Hr as [Hr _]. congruence. }
  destruct (no_eligible_no_candidates branches cars DISTANCE_THRESHOLD _
              encoded Hno) as [He Hc].
  pose proof (no_candidates_returns_null branches cars trips _ _ TIME _ Hc)
    as Hnull.
  split; [exact He|]. split; [|exact Hnull].
  intros r. rewrite Hnull. discriminate.
Qed.

Lemma score_candidate c s :
  score rt c = Some s ->
  BestBranchResult.candidate s = c /\
  exists p,
    Candidate.minDistanceLocation c = Some p /\
    BestBranchResult.distanceToMinLocation_meters s =
      getDistance rt (Point.mk (Candidate.lat c) (Candidate.lng c)) p /\
    BestBranchResult.distanceRatio s =
      (Candidate.distanceToRoute_meters c /
       BestBranchResult.distanceToMinLocation_meters s)%float.
Proof.
  unfold score. destruct (Candidate.minDistanceLocation c) as [p|];
    [|discriminate].
  simpl. intros [= <-]. simpl. eauto.
Qed.

Lemma getBest_result branches cars trips DT RT TIME encoded r :
  getBestBranchWithAvailableEV rt branches cars trips DT RT TIME encoded
  = Returns (Some r) ->
  BestBranchResult.candidate r ∈
    freeCandidates_for rt branches cars trips DT RT TIME encoded /\
  score rt (BestBranchResult.candidate r) = Some r.
Proof.
  intros Hr. rewrite getBest_unfold in Hr.
  pose proof (selectBest_cases rt
    (freeCandidates_for rt branches cars trips DT RT TIME encoded)) as Hc.
  rewrite Hr in Hc. destruct Hc as (first & rest & Hm & ->).
  destruct (selected_reduce first rest) as (pre & post & Hl & _).
  assert (Hin : fold_left pickBest rest first ∈ first :: rest).
  { rewrite Hl. apply elem_of_app. right. left. }
  destruct (mapM_elem _ _ _ _ Hm Hin) as (c & Hc & Hs).
  destruct (score_candidate _ _ Hs) as [-> _]. auto.
Qed.

(** X17. A branch returned by the call is one of the free candidates,
    scored: it names a branch row; the id of its EV starts with E, has no
    booking on the local date of the target time, and is the trimmed id of
    an electric car whose range is strictly above the range threshold;
    its distance to the route is a number not above the lateral threshold;
    its nearest point is set, the recomputed distance is measured from the
    branch to that point, and the ratio is the quotient of the two
    distances. *)
Theorem returned_branch_is_sound (branches : list BranchRow.t)
    (cars : list CarRow.t) (trips : list TripRow.t)
    (DISTANCE_THRESHOLD RANGE_THRESHOLD : float) (TIME : DateInput)
    (encoded : string) (r : BestBranchResult.t) :
  getBestBranchWithAvailableEV rt branches cars trips DISTANCE_THRESHOLD
    RANGE_THRESHOLD TIME encoded = Returns (Some r) ->
  let c := BestBranchResult.candidate r in
  c ∈ candidates_for rt branches cars DISTANCE_THRESHOLD RANGE_THRESHOLD
        encoded /\
  score rt c = Some r /\
  (exists branch, branch ∈ branches /\
     Candidate.branch c = BranchRow.Name branch) /\
  startsWith "E" (Candidate.ev_id c) = true /\
  (exists car, car ∈ cars /\ trim (CarRow.id car) = Candidate.ev_id c /\
     CarRow.type car = "electric"%string /\
     (RANGE_THRESHOLD <? parseFloat rt (CarRow.range_km car))%float = true) /\
  ~ bookedOn rt trips (Candidate.ev_id c) (toLocalDate rt TIME) /\
  isNaN (Candidate.distanceToRoute_meters c) = false /\
  (DISTANCE_THRESHOLD <? Candidate.distanceToRoute_meters c)%float = false /\
  exists p,
    Candidate.minDistanceLocation c = Some p /\
    BestBranchResult.distanceToMinLocation_meters r =
      getDistance rt (Point.mk (Candidate.lat c) (Candidate.lng c)) p /\
    BestBranchResult.distanceRatio r =
      (Candidate.distanceToRoute_meters c /
       BestBranchResult.distanceToMinLocation_meters r)%float.
Proof.
  intros Hr c. apply getBest_result in Hr as [Hfree Hs]. fold c in Hfree, Hs.
  apply freeCandidates_elem in Hfree as [Hc Hnb].
  split; [exact Hc|]. split; [exact Hs|].
  pose proof Hc as (branch & Hb & Hcb)%candidates_for_elem.
  split; [exists branch; split;
            [exact Hb | by eapply contribution_branch]|].
  pose proof (contribution_elem_ev _ _ _ _ _ Hcb)
    as (ev & _ & Hisev & Hid & _).
  split; [by rewrite Hid|].
  pose proof Hc as (e & He & _)%candidates_indexed.
  apply highRangeEvMap_lookup in He as (car & Hin & Hhi & Hk & _).
  apply isHighRangeEv_spec in Hhi as [Hty Hrange].
  split; [eauto 6|]. split; [exact Hnb|].
  pose proof Hc as (info & Hinfo & Hd & _)%candidate_nearby.
  apply findNearby_elem in Hinfo as (b' & _ & _ & Hscan & Hgt).
  pose proof (scanRoute_not_nan rt (decodePath rt encoded)
                (branchCoords rt b')) as Hnn.
  rewrite Hscan in Hnn. simpl in Hnn. rewrite <- Hd in Hnn, Hgt.
  split; [exact Hnn|]. split; [exact Hgt|].
  by apply score_candidate in Hs as [_ Hs].
Qed.

(** X18. An eligible EV that is free on the target day at a nearby branch
    is never missed: when a result of the route-proximity filter carries the
    name of a branch row, the row lists an id that starts with E (after
    trimming) and is the trimmed id of an electric car with a range above
    the threshold, and that id has no booking on the local date of the
    target time, the call does not return [null].  On the rows of this model
    (every cars cell holds an array of strings or does not parse; on another
    JSON value in any branch row the call fails in step 3 instead) and with
    a lateral threshold below [Infinity], it returns a branch. *)
Theorem free_eligible_ev_is_offered (branches : list BranchRow.t)
    (cars : list CarRow.t) (trips : list TripRow.t)
    (DISTANCE_THRESHOLD RANGE_THRESHOLD : float) (TIME : DateInput)
    (encoded : string) (branch : BranchRow.t) (info : NearbyBranchResult.t)
    (ev : string) (car : CarRow.t) :
  branch ∈ branches ->
  info ∈ findNearbyBranchesFromPolyline rt DISTANCE_THRESHOLD encoded
           branches ->
  NearbyBranchResult.Name info = BranchRow.Name branch ->
  ev ∈ parseStringArray rt (BranchRow.cars branch) ->
  startsWith "E" (trim ev) = true ->
  car ∈ cars ->
  trim (CarRow.id car) = trim ev ->
  CarRow.type car = "electric"%string ->
  (RANGE_THRESHOLD <? parseFloat rt (CarRow.range_km car))%float = true ->
  ~ bookedOn rt trips (trim ev) (toLocalDate rt TIME) ->
  getBestBranchWithAvailableEV rt branches cars trips DISTANCE_THRESHOLD
    RANGE_THRESHOLD TIME encoded <> Returns None /\
  ((DISTANCE_THRESHOLD <? infinity)%float = true ->
   exists r,
     getBestBranchWithAvailableEV rt branches cars trips DISTANCE_THRESHOLD
       RANGE_THRESHOLD TIME encoded = Returns (Some r)).
Proof.
  intros Hb Hinfo Hname Hev Hisev Hcar Hid Hty Hrange Hnb.
  set (nm := nearbyMap_for rt branches DISTANCE_THRESHOLD encoded).
  set (m := highRangeEvMap_of rt RANGE_THRESHOLD cars).
  assert (Hnm : is_Some (nm !! BranchRow.Name branch))
    by (apply nearbyMap_is_Some; eauto).
  assert (Hm : is_Some (m !! trim ev)).
  { apply highRangeEvMap_is_Some. exists car.
    rewrite isHighRangeEv_spec. auto. }
  assert (Hel : ev ∈ eligibleIds rt m branch).
  { unfold eligibleIds. apply list_elem_of_In, filter_In. split.
    - apply filter_In. split; [by apply list_elem_of_In | exact Hisev].
    - by apply bool_decide_eq_true. }
  assert (Hc : exists c, c ∈ contribution rt nm m branch /\
                         Candidate.ev_id c = trim ev).
  { pose proof (contribution_ev_ids rt nm m branch Hnm) as Hids.
    assert (Hin : trim ev ∈
              map Candidate.ev_id (contribution rt nm m branch)).
    { rewrite Hids. apply list_elem_of_In, in_map, list_elem_of_In, Hel. }
    apply list_elem_of_In, in_map_iff in Hin as (c & Hc & Hin).
    exists c. split; [by apply list_elem_of_In | exact Hc]. }
  destruct Hc as (c & Hc & Hcid).
  assert (Hfree : c ∈ freeCandidates_for rt branches cars trips
                        DISTANCE_THRESHOLD RANGE_THRESHOLD TIME encoded).
  { apply freeCandidates_elem. split.
    - apply candidates_for_elem. eauto.
    - by rewrite Hcid. }
  assert (Hnn : getBestBranchWithAvailableEV rt branches cars trips
                  DISTANCE_THRESHOLD RANGE_THRESHOLD TIME encoded
                <> Returns None).
  { rewrite getBest_unfold. intros Hnone.
    pose proof (selectBest_cases rt
      (freeCandidates_for rt branches cars trips DISTANCE_THRESHOLD
         RANGE_THRESHOLD TIME encoded)) as Hcases.
    rewrite Hnone in Hcases. rewrite Hcases in Hfree.
    by apply elem_of_nil in Hfree. }
  split; [exact Hnn|]. intros HT.
  destruct (finite_threshold_returns branches cars trips _ RANGE_THRESHOLD
              TIME encoded HT) as [[r|] Ho]; [eauto | contradiction].
Qed.

(** X19. A branch returned to the trip planners (lateral threshold 1000 m,
    range threshold 100 km, today as a date string) lies at most 1000 m from
    a point of the route, which is its nearest point, and offers an electric
    car whose range is above 100 km.  On the rows of this model (every cars
    cell holds an array of strings or does not parse; on another JSON value
    the call fails in step 3) the call of the planners always returns,
    [null] or a branch: at this threshold the scoring step cannot fail. *)
Theorem planner_branch_within_bounds (branches : list BranchRow.t)
    (cars : list CarRow.t) (trips : list TripRow.t)
    (today encodedPolyline : string) :
  (exists o,
     MergeTrip.bestBranch rt branches cars trips today encodedPolyline
     = Returns o) /\
  forall r,
    MergeTrip.bestBranch rt branches cars trips today encodedPolyline
    = Returns (Some r) ->
    let c := BestBranchResult.candidate r in
    (Candidate.distanceToRoute_meters c <=? 1000)%float = true /\
    (exists p, p ∈ decodePath rt encodedPolyline /\
       Candidate.minDistanceLocation c = Some p) /\
    exists car, car ∈ cars /\ trim (CarRow.id car) = Candidate.ev_id c /\
      CarRow.type car = "electric"%string /\
      (100 <? parseFloat rt (CarRow.range_km car))%float = true.
Proof.
  unfold MergeTrip.bestBranch. split.
  - by apply finite_threshold_returns.
  - intros r Hr. apply getBest_result in Hr as [Hfree _].
    set (c := BestBranchResult.candidate r) in *.
    apply freeCandidates_elem in Hfree as [Hc _].
    pose proof Hc as (info & Hinfo & Hd & Hl)%candidate_nearby.
    apply findNearby_elem in Hinfo as (b' & _ & _ & Hscan & Hgt).
    pose proof (scanRoute_spec rt (decodePath rt encodedPolyline)
                  (branchCoords rt b')) as [Hloc _].
    pose proof (scanRoute_not_nan rt (decodePath rt encodedPolyline)
                  (branchCoords rt b')) as Hnn.
    rewrite Hscan in Hloc, Hnn. simpl in Hloc, Hnn.
    rewrite <- Hd in Hnn, Hgt, Hloc. rewrite <- Hl in Hloc.
    split; [apply not_ltb_leb; [reflexivity | exact Hnn | exact Hgt]|].
    split.
    + destruct (Candidate.minDistanceLocation c) as [p|].
      * destruct Hloc as (Hp & _). eauto.
      * rewrite Hloc in Hgt. discriminate.
    + pose proof Hc as (e & He & _)%candidates_indexed.
      apply highRangeEvMap_lookup in He as (car & Hin & Hhi & Hk & _).
      apply isHighRangeEv_spec in Hhi as [Hty Hrange]. eauto 6.
Qed.

End Outcomes.

(** ** A branch on the route *)

Section OnTheRoute.

Context (rt : Runtime).

Import JsNumber JsString FloatFacts StringFacts.

Lemma finite_cases x :
  is_finite x = true ->
  (exists s, Prim2SF x = S754_zero s) \/
  (exists s m e, Prim2SF x = S754_finite s m e).
Proof.
  unfold is_finite, is_nan, is_infinity.
  rewrite !FloatAxioms.eqb_spec, abs_spec.
  change (Prim2SF infinity) with (S754_infinity false).
  destruct (Prim2SF x) as [s|[]| |s m e]; eauto; discriminate.
Qed.

Lemma sub_self x : is_finite x = true -> (x - x)%float = 0%float.
Proof.
  intros Hf. apply Prim2SF_inj. rewrite sub_spec.
  change (Prim2SF 0) with (S754_zero false).
  destruct (finite_cases x Hf) as [[s ->]|(s & m & e & ->)].
  - destruct s; reflexivity.
  - unfold SF64sub, SFsub. rewrite Z.sub_diag. reflexivity.
Qed.

Lemma mul_finite_zero y :
  is_finite y = true -> (y * 0)%float = 0%float \/ (y * 0)%float = (-0)%float.
Proof.
  intros Hf.
  assert (H : exists s, Prim2SF (y * 0) = S754_zero s).
  { rewrite mul_spec. change (Prim2SF 0) with (S754_zero false).
    destruct (finite_cases y Hf) as [[s ->]|(s & m & e & ->)];
      eexists; reflexivity. }
  destruct H as [[] H]; [right | left]; apply Prim2SF_inj; rewrite H;
    reflexivity.
Qed.

Lemma getDistance_self p :
  is_finite (Point.lat p) = true -> is_finite (Point.lng p) = true ->
  exact_at rt (Point.lat p) -> getDistance rt p p = 0%float.
Proof.
  intros Hlat Hlng (Hsin & Hcos & Hatan). unfold getDistance.
  rewrite (sub_self _ Hlat), (sub_self _ Hlng).
  change (0 * PI / 180 / 2)%float with 0%float. rewrite Hsin.
  destruct (mul_finite_zero _ Hcos) as [-> | ->].
  - change (sqrt (0 + 0))%float with 0%float.
    change (sqrt (1 - (0 + 0)))%float with 1%float.
    rewrite Hatan. reflexivity.
  - change (sqrt (0 + -0))%float with 0%float.
    change (sqrt (1 - (0 + -0)))%float with 1%float.
    rewrite Hatan. reflexivity.
Qed.

(** X20. In a runtime that is exact at zero (the sine of zero squares to
    zero, [atan2(0, 1)] is zero, the cosine of the latitude is a number), the
    distance of a point with finite coordinates to itself is exactly zero;
    the scan of a path through that point then records a distance that is
    not above zero, so a branch at a point of the path passes every lateral
    threshold that is not negative. *)
Theorem distance_to_self_is_zero (p : Point.t) :
  is_finite (Point.lat p) = true -> is_finite (Point.lng p) = true ->
  exact_at rt (Point.lat p) ->
  getDistance rt p p = 0%float /\
  forall decoded, p ∈ decoded ->
    ((scanRoute rt decoded p).1 <=? 0)%float = true /\
    forall DISTANCE_THRESHOLD, (0 <=? DISTANCE_THRESHOLD)%float = true ->
      gt (scanRoute rt decoded p).1 DISTANCE_THRESHOLD = false.
Proof.
  intros Hlat Hlng Hex.
  pose proof (getDistance_self p Hlat Hlng Hex) as Hz.
  split; [exact Hz|]. intros decoded Hp.
  pose proof (scanRoute_spec rt decoded p) as [_ Hmin].
  pose proof (scanRoute_not_nan rt decoded p) as Hnn.
  specialize (Hmin p Hp). rewrite Hz in Hmin.
  assert (Hle : ((scanRoute rt decoded p).1 <=? 0)%float = true)
    by (apply not_ltb_leb; [reflexivity | exact Hnn | exact Hmin]).
  split; [exact Hle|]. intros T HT. unfold gt.
  destruct (T <? (scanRoute rt decoded p).1)%float eqn:E; [|reflexivity].
  pose proof (leb_ltb_trans _ _ _ HT E) as H0.
  pose proof (ltb_leb_trans _ _ _ H0 Hle) as Habs.
  by rewrite ltb_irrefl in Habs.
Qed.

End OnTheRoute.

(** ** Sample runs

    The theorems above, applied to the sample data in the concrete
    runtime. *)

Module Runs.

Import JsNumber JsString FloatFacts.

(** The square of the polynomial sine is even. *)
Lemma demo_sin_sq_even tz : sin_sq_even (Demo.runtime tz).
Proof.
  intros x. simpl. unfold Demo.pow, Demo.sin.
  change (2 =? 2)%float with true. cbv iota.
  rewrite !(mul_opp_opp x x), mul_opp_l. apply mul_opp_opp.
Qed.

(** Scenario A: the branch next to the route is selected with its EV. *)
Example scenario_A :
  exists r,
    getBestBranchWithAvailableEV Demo.utc [Demo.branchMid] [Demo.carE1] []
      1000 100 (DateString "2024-06-01") Demo.route = Returns (Some r) /\
    Candidate.branch (BestBranchResult.candidate r) = "Mid"%string /\
    Candidate.ev_id (BestBranchResult.candidate r) = "E1"%string /\
    BestBranchResult.distanceRatio r = 1%float.
Proof. eexists. vm_compute. repeat split. Qed.

(** Scenario D: a branch with no E-prefixed vehicle id adds no candidate. *)
Example scenario_D :
  getBestBranchWithAvailableEV Demo.utc
    [BranchRow.mk "Mid" "50.5" "14.50001" (Some "['G1','H2']")] [Demo.carE1]
    [] 1000 100 (DateString "2024-06-01") Demo.route = Returns None.
Proof. vm_compute. reflexivity. Qed.

(** Two rows under one name: the map of nearby branches keeps the result of
    the later row, and the candidate of the earlier row pairs its own
    coordinates with that result; the two distances then differ. *)
Example duplicate_names_mix_rows :
  exists r,
    getBestBranchWithAvailableEV Demo.utc [Demo.branchMid; Demo.branchMidTwin]
      [Demo.carE1] [] 1000 100 (DateString "2024-06-01") Demo.route
      = Returns (Some r) /\
    Candidate.distanceToRoute_meters (BestBranchResult.candidate r) = 0%float /\
    (0 <? BestBranchResult.distanceToMinLocation_meters r)%float = true /\
    BestBranchResult.distanceRatio r = 0%float.
Proof. eexists. vm_compute. repeat split. Qed.

(** C1: the candidate on the route scores [NaN] and the one next to it
    scores 1, the only score that is a number.  With the [NaN] first it is
    the [NaN] that is returned; in the other order, the 1. *)
Lemma nan_first_candidate_is_returned :
  exists cMid sMid,
    candidates_for Demo.utc [Demo.branchMid] [Demo.carE1] 1000 100 Demo.route
      = [cMid] /\
    score Demo.utc cMid = Some sMid /\
    score Demo.utc Demo.candOn = Some Demo.scoredOn /\
    BestBranchResult.distanceRatio sMid = 1%float /\
    BestBranchResult.distanceRatio Demo.scoredOn = nan /\
    selectBest Demo.utc [Demo.candOn; cMid] = Returns (Some Demo.scoredOn) /\
    selectBest Demo.utc [cMid; Demo.candOn] = Returns (Some sMid).
Proof. do 2 eexists. vm_compute. repeat split. Qed.

(** C2: three rows, two of them under the name Mid.  The candidate of the
    first Mid row takes the distance 0 of the second; its recomputed
    distance is positive, its ratio 0, and it is returned although it is the
    second free candidate and the first scores 1. *)
Lemma duplicate_names_later_candidate_wins :
  exists first second s1 r,
    freeCandidates_for Demo.utc
      [Demo.branchWest; Demo.branchMid; Demo.branchMidTwin]
      [Demo.carE1; Demo.carE2] [] 1000 100 (DateString "2024-06-01")
      Demo.route = [first; second] /\
    score Demo.utc first = Some s1 /\
    BestBranchResult.distanceRatio s1 = 1%float /\
    getBestBranchWithAvailableEV Demo.utc
      [Demo.branchWest; Demo.branchMid; Demo.branchMidTwin]
      [Demo.carE1; Demo.carE2] [] 1000 100 (DateString "2024-06-01")
      Demo.route = Returns (Some r) /\
    BestBranchResult.candidate r = second /\
    Candidate.branch second = "Mid"%string /\
    Candidate.distanceToRoute_meters second = 0%float /\
    (0 <? BestBranchResult.distanceToMinLocation_meters r)%float = true /\
    BestBranchResult.distanceRatio r = 0%float.
Proof. do 4 eexists. vm_compute. repeat split. Qed.

(** C10, on a route of one point. *)
Lemma degenerate_path_empty_run :
  (length (polyline_decode Demo.utc Demo.routeOnePoint) < 2)%nat /\
  findNearbyBranchesFromPolyline Demo.utc 1000 Demo.routeOnePoint
    [Demo.branchMid] = [].
Proof.
  assert (H : (length (polyline_decode Demo.utc Demo.routeOnePoint) < 2)%nat)
    by (vm_compute; lia).
  split; [exact H|].
  exact (degenerate_path_empty Demo.utc 1000 Demo.routeOnePoint
           [Demo.branchMid] H).
Defined.

(** C4, on a branch one meter past the end of the route: within the
    lateral threshold, and rejected. *)
Lemma beyond_forward_bound_rejected_run :
  ((scanRoute Demo.utc (decodePath Demo.utc Demo.route)
      (branchCoords Demo.utc Demo.branchFar)).1 <? 1000)%float = true /\
  findNearbyBranchesFromPolyline Demo.utc 1000 Demo.route
    [Demo.branchFar; Demo.branchMid] =
  findNearbyBranchesFromPolyline Demo.utc 1000 Demo.route [Demo.branchMid].
Proof.
  split; [vm_compute; reflexivity|].
  refine (proj2 (beyond_forward_bound_rejected Demo.utc 1000 Demo.route []
                   [Demo.branchMid] Demo.branchFar (Point.mk 50 14)
                   (Point.mk 51 15) _ _ _));
    vm_compute; reflexivity.
Defined.

(** C8, between the thresholds 500 and 1000. *)
Lemma threshold_monotone_run :
  sublist
    (findNearbyBranchesFromPolyline Demo.utc 500 Demo.route
       [Demo.branchMid; Demo.branchFar])
    (findNearbyBranchesFromPolyline Demo.utc 1000 Demo.route
       [Demo.branchMid; Demo.branchFar]) /\
  dom (highRangeEvMap_of Demo.utc 1000 [Demo.carE1; Demo.carE2]) ⊆
  dom (highRangeEvMap_of Demo.utc 500 [Demo.carE1; Demo.carE2]).
Proof.
  assert (H : (500 <=? 1000)%float = true) by reflexivity.
  split.
  - exact (proj1 (threshold_monotone Demo.utc 500 1000 H) Demo.route
             [Demo.branchMid; Demo.branchFar]).
  - exact (proj2 (threshold_monotone Demo.utc 500 1000 H)
             [Demo.carE1; Demo.carE2]).
Defined.

(** C6: a row with a blank vehicle id and a departure time that parses adds
    no date. *)
Lemma trip_without_vehicle_adds_nothing :
  Demo.tripNoCar = TripRow.mk "  " (Some "2024-06-01T08:00:00Z"%string) None /\
  Date_parse Demo.utc "2024-06-01T08:00:00Z" = Some 1717228800000 /\
  bookTrip Demo.utc ∅ Demo.tripNoCar = ∅ /\
  bookedMap_of Demo.utc [Demo.tripNoCar] = ∅.
Proof. repeat split; vm_compute; reflexivity. Qed.

(** C6 (amended), on a trip with a vehicle id and a departure time. *)
Lemma booked_date_per_trip_run :
  bookTrip Demo.utc ∅ Demo.tripE1
  = <["E1"%string := ["2024-06-01"%string]]> ∅.
Proof.
  assert (Hid : trim (TripRow.car_id Demo.tripE1) <> ""%string)
    by (vm_compute; discriminate).
  refine (proj1 (proj1 (proj1 (booked_date_per_trip Demo.utc ∅ Demo.tripE1)
                          Hid)
                   "2024-06-01T08:00:00Z"%string _ _) _).
  - reflexivity.
  - discriminate.
  - vm_compute. eauto.
Defined.

(** C2, on the sample data. *)
Lemma recomputed_distance_run :
  getDistance Demo.utc (Point.mk 50 14) (Point.mk 51 15) =
  getDistance Demo.utc (Point.mk 51 15) (Point.mk 50 14) /\
  exists first rest r,
    freeCandidates_for Demo.utc [Demo.branchOn; Demo.branchMid]
      [Demo.carE1; Demo.carE2] [] 1000 100 (DateString "2024-06-01")
      Demo.route = first :: rest /\
    score Demo.utc first = Some r /\
    getBestBranchWithAvailableEV Demo.utc [Demo.branchOn; Demo.branchMid]
      [Demo.carE1; Demo.carE2] [] 1000 100 (DateString "2024-06-01")
      Demo.route = Returns (Some r).
Proof.
  assert (Hnd : NoDup (map BranchRow.Name [Demo.branchOn; Demo.branchMid])).
  { simpl. apply NoDup_cons. split.
    - intros H. apply list_elem_of_singleton in H. discriminate.
    - apply NoDup_singleton. }
  pose proof (recomputed_distance_is_route_distance Demo.utc
                [Demo.branchOn; Demo.branchMid] [Demo.carE1; Demo.carE2] []
                1000 100 (DateString "2024-06-01") Demo.route
                (demo_sin_sq_even 0) Hnd) as (Hsym & _ & Hfirst).
  split; [apply Hsym|].
  destruct (Hfirst Demo.scoredOn) as (first & rest & Hfree & Hscore).
  - vm_compute. reflexivity.
  - exists first, rest, Demo.scoredOn.
    split; [exact Hfree|]. split; [exact Hscore|].
    vm_compute. reflexivity.
Defined.

(** C3: in the call, a branch on a point of the route has both distances
    zero; its score is [NaN], not infinite, and it is returned although the
    other candidate has the finite score 1. *)
Lemma zero_distance_scores_nan :
  exists other,
    mapM (score Demo.utc)
      (freeCandidates_for Demo.utc [Demo.branchOn; Demo.branchMid]
         [Demo.carE1; Demo.carE2] [] 1000 100 (DateString "2024-06-01")
         Demo.route) = Some [Demo.scoredOn; other] /\
    getBestBranchWithAvailableEV Demo.utc [Demo.branchOn; Demo.branchMid]
      [Demo.carE1; Demo.carE2] [] 1000 100 (DateString "2024-06-01")
      Demo.route = Returns (Some Demo.scoredOn) /\
    BestBranchResult.distanceToMinLocation_meters Demo.scoredOn = 0%float /\
    BestBranchResult.distanceRatio Demo.scoredOn = nan /\
    is_infinity (BestBranchResult.distanceRatio Demo.scoredOn) = false /\
    BestBranchResult.distanceRatio other = 1%float /\
    is_finite (BestBranchResult.distanceRatio other) = true.
Proof. eexists. vm_compute. repeat split. Qed.

(** C3 (amended), on that candidate alone. *)
Lemma zero_distance_score_run :
  BestBranchResult.distanceRatio Demo.scoredOn = nan /\
  selectBest Demo.utc [Demo.candOn] = Returns (Some Demo.scoredOn).
Proof.
  assert (Hs : score Demo.utc Demo.candOn = Some Demo.scoredOn)
    by (vm_compute; reflexivity).
  pose proof (zero_distance_score Demo.utc Demo.candOn Demo.scoredOn Hs
                eq_refl) as (_ & Hnan & Halone).
  split; [|exact Halone].
  exact (proj1 (Hnan eq_refl)).
Defined.

(** C5: scenario B where local time is not UTC.  The only candidate has the
    EV E1, booked at 2024-06-01T08:00:00Z.  Four hours west, with the target
    given as the date string, the target falls on May 31 and the booking on
    June 1; ten hours west, with the target at local midnight of June 1, the
    booking falls on May 31.  In both the EV stays free and is selected. *)
Lemma scenario_B_west_of_utc :
  Demo.tripE1 = TripRow.mk "E1" (Some "2024-06-01T08:00:00Z"%string) None /\
  (exists c,
     candidates_for (Demo.runtime (-240)) [Demo.branchMid] [Demo.carE1] 1000
       100 Demo.route = [c] /\
     Candidate.ev_id c = "E1"%string) /\
  toLocalDate (Demo.runtime (-240)) (DateString "2024-06-01")
    = "2024-05-31"%string /\
  toLocalDate (Demo.runtime (-240)) (DateString "2024-06-01T08:00:00Z")
    = "2024-06-01"%string /\
  (exists r,
     getBestBranchWithAvailableEV (Demo.runtime (-240)) [Demo.branchMid]
       [Demo.carE1] [Demo.tripE1] 1000 100 (DateString "2024-06-01")
       Demo.route = Returns (Some r) /\
     Candidate.ev_id (BestBranchResult.candidate r) = "E1"%string) /\
  (exists c,
     candidates_for (Demo.runtime (-600)) [Demo.branchMid] [Demo.carE1] 1000
       100 Demo.route = [c] /\
     Candidate.ev_id c = "E1"%string) /\
  toLocalDate (Demo.runtime (-600)) (DateObject (Some 1717236000000))
    = "2024-06-01"%string /\
  toLocalDate (Demo.runtime (-600)) (DateString "2024-06-01T08:00:00Z")
    = "2024-05-31"%string /\
  (exists r,
     getBestBranchWithAvailableEV (Demo.runtime (-600)) [Demo.branchMid]
       [Demo.carE1] [Demo.tripE1] 1000 100
       (DateObject (Some 1717236000000)) Demo.route = Returns (Some r) /\
     Candidate.ev_id (BestBranchResult.candidate r) = "E1"%string).
Proof.
  split; [reflexivity|].
  split; [eexists; vm_compute; split; reflexivity|].
  split; [vm_compute; reflexivity|].
  split; [vm_compute; reflexivity|].
  split; [eexists; vm_compute; split; reflexivity|].
  split; [eexists; vm_compute; split; reflexivity|].
  split; [vm_compute; reflexivity|].
  split; [vm_compute; reflexivity|].
  eexists; vm_compute; split; reflexivity.
Qed.

(** C5 (amended), scenario B in UTC: the only candidate is booked on the
    target day, and the call returns [null]. *)
Lemma scenario_B_utc :
  getBestBranchWithAvailableEV Demo.utc [Demo.branchMid] [Demo.carE1]
    [Demo.tripE1] 1000 100 (DateString "2024-06-01") Demo.route
  = Returns None.
Proof.
  refine (proj2 (booked_candidate_excluded Demo.utc [Demo.branchMid]
                   [Demo.carE1] [Demo.tripE1] 1000 100
                   (DateString "2024-06-01") Demo.route Demo.tripE1
                   "2024-06-01T08:00:00Z"%string _ _ _ _ _ _) _).
  - left.
  - vm_compute. discriminate.
  - reflexivity.
  - discriminate.
  - vm_compute. eauto.
  - vm_compute. reflexivity.
  - assert (Hc : exists c,
              candidates_for Demo.utc [Demo.branchMid] [Demo.carE1] 1000 100
                Demo.route = [c] /\
              Candidate.ev_id c = "E1"%string)
      by (eexists; vm_compute; split; reflexivity).
    destruct Hc as (c0 & -> & Hid). intros c Hc.
    apply list_elem_of_singleton in Hc as ->. exact Hid.
Defined.

(** X3, on a row whose latitude reads north. *)
Lemma unparsed_coordinates_skipped_run :
  findNearbyBranchesFromPolyline Demo.utc 1000 Demo.route
    [Demo.branchNowhere; Demo.branchMid] =
  findNearbyBranchesFromPolyline Demo.utc 1000 Demo.route [Demo.branchMid].
Proof.
  refine (proj1 (unparsed_coordinates_skipped Demo.utc 1000 Demo.route []
                   [Demo.branchMid] Demo.branchNowhere _)).
  left. vm_compute. reflexivity.
Defined.

(** X5, between the thresholds [NaN] and 1000. *)
Lemma nan_threshold_bounds_nothing_run :
  sublist
    (findNearbyBranchesFromPolyline Demo.utc 1000 Demo.route
       [Demo.branchMid; Demo.branchFar])
    (findNearbyBranchesFromPolyline Demo.utc nan Demo.route
       [Demo.branchMid; Demo.branchFar]).
Proof.
  exact (proj2 (nan_threshold_bounds_nothing Demo.utc nan Demo.route
                  [Demo.branchMid; Demo.branchFar] eq_refl) 1000%float).
Defined.

(** X11: with a target that is no date, the booking of E1 on the first of
    June does not take it from the candidates. *)
Lemma invalid_target_date_frees_all_run :
  freeCandidates_for Demo.utc [Demo.branchMid] [Demo.carE1] [Demo.tripE1]
    1000 100 (DateString "soon") Demo.route =
  candidates_for Demo.utc [Demo.branchMid] [Demo.carE1] 1000 100 Demo.route.
Proof.
  refine (proj2 (proj2 (invalid_target_date_frees_all Demo.utc
                          [Demo.branchMid] [Demo.carE1] [Demo.tripE1] 1000 100
                          (DateString "soon") Demo.route _))).
  vm_compute. reflexivity.
Defined.

(** X12, on 08:00 and 10:00 of the first of June 2024. *)
Lemma same_date_string_same_day_run :
  toLocalDate Demo.utc (DateObject (Some Demo.june1_0800)) =
  toLocalDate Demo.utc (DateObject (Some Demo.june1_1000)) <->
  Date_getFullYear Demo.utc Demo.june1_0800 =
    Date_getFullYear Demo.utc Demo.june1_1000 /\
  Date_getMonth Demo.utc Demo.june1_0800 =
    Date_getMonth Demo.utc Demo.june1_1000 /\
  Date_getDate Demo.utc Demo.june1_0800 =
    Date_getDate Demo.utc Demo.june1_1000.
Proof.
  assert (Hm : Date_getMonth Demo.utc Demo.june1_0800 = 5)
    by (vm_compute; reflexivity).
  assert (Hd : Date_getDate Demo.utc Demo.june1_0800 = 1)
    by (vm_compute; reflexivity).
  assert (Hm' : Date_getMonth Demo.utc Demo.june1_1000 = 5)
    by (vm_compute; reflexivity).
  assert (Hd' : Date_getDate Demo.utc Demo.june1_1000 = 1)
    by (vm_compute; reflexivity).
  apply (same_date_string_same_day Demo.utc Demo.june1_0800 Demo.june1_1000);
    rewrite ?Hm, ?Hd, ?Hm', ?Hd'; lia.
Defined.

(** X13, at the threshold of the planners. *)
Lemma finite_threshold_never_throws_run :
  exists o,
    getBestBranchWithAvailableEV Demo.utc [Demo.branchMid; Demo.branchFar]
      [Demo.carE1] [Demo.tripE1] 1000 100 (DateString "2024-06-02")
      Demo.route = Returns o.
Proof.
  exact (proj2 (proj2 (finite_threshold_never_throws Demo.utc
                         [Demo.branchMid; Demo.branchFar] [Demo.carE1]
                         [Demo.tripE1] 1000 100 (DateString "2024-06-02")
                         Demo.route eq_refl))).
Defined.

(** X14, on a route of one point. *)
Lemma no_nearby_branch_returns_null_run :
  getBestBranchWithAvailableEV Demo.utc [Demo.branchMid] [Demo.carE1] [] 1000
    100 (DateString "2024-06-01") Demo.routeOnePoint = Returns None.
Proof.
  refine (proj2 (proj2 (no_nearby_branch_returns_null Demo.utc
                          [Demo.branchMid] [Demo.carE1] [] 1000 100
                          (DateString "2024-06-01") Demo.routeOnePoint _))).
  right. vm_compute. lia.
Defined.

(** X15: a range equal to the threshold, and a car that is not electric. *)
Lemma no_eligible_car_returns_null_run :
  getBestBranchWithAvailableEV Demo.utc [Demo.branchMid]
    [Demo.carE1; Demo.carG1] [] 1000 150 (DateString "2024-06-01") Demo.route
  = Returns None.
Proof.
  refine (proj2 (proj2 (no_eligible_car_returns_null Demo.utc
                          [Demo.branchMid] [Demo.carE1; Demo.carG1] [] 1000
                          150 (DateString "2024-06-01") Demo.route _))).
  intros car Hcar. apply elem_of_cons in Hcar as [->|Hcar].
  - right. vm_compute. reflexivity.
  - apply list_elem_of_singleton in Hcar as ->. left. discriminate.
Defined.

(** X16, on the data of scenario A. *)
Lemma nan_range_threshold_returns_null_run :
  getBestBranchWithAvailableEV Demo.utc [Demo.branchMid] [Demo.carE1] [] 1000
    nan (DateString "2024-06-01") Demo.route = Returns None.
Proof.
  exact (proj2 (proj2 (nan_range_threshold_returns_null Demo.utc
                         [Demo.branchMid] [Demo.carE1] [] 1000 nan
                         (DateString "2024-06-01") Demo.route eq_refl))).
Defined.

(** X17, on the branch returned in scenario A. *)
Lemma returned_branch_is_sound_run :
  exists r,
    getBestBranchWithAvailableEV Demo.utc [Demo.branchMid] [Demo.carE1]
      [Demo.tripE1] 1000 100 (DateString "2024-06-02") Demo.route
    = Returns (Some r) /\
    startsWith "E" (Candidate.ev_id (BestBranchResult.candidate r)) = true /\
    ~ bookedOn Demo.utc [Demo.tripE1]
        (Candidate.ev_id (BestBranchResult.candidate r))
        (toLocalDate Demo.utc (DateString "2024-06-02")) /\
    (1000 <? Candidate.distanceToRoute_meters (BestBranchResult.candidate r))
      %float = false.
Proof.
  assert (Hr : exists r,
            getBestBranchWithAvailableEV Demo.utc [Demo.branchMid]
              [Demo.carE1] [Demo.tripE1] 1000 100 (DateString "2024-06-02")
              Demo.route = Returns (Some r))
    by (eexists; vm_compute; reflexivity).
  destruct Hr as [r Hr]. exists r. split; [exact Hr|].
  pose proof (returned_branch_is_sound Demo.utc _ _ _ _ _ _ _ r Hr) as H.
  simpl in H. tauto.
Defined.

(** X18, on the data of scenario A with a booking on the day before. *)
Lemma free_eligible_ev_is_offered_run :
  exists r,
    getBestBranchWithAvailableEV Demo.utc [Demo.branchMid] [Demo.carE1]
      [Demo.tripE1] 1000 100 (DateString "2024-06-02") Demo.route
    = Returns (Some r).
Proof.
  assert (Hinfo : exists info,
            findNearbyBranchesFromPolyline Demo.utc 1000 Demo.route
              [Demo.branchMid] = [info] /\
            NearbyBranchResult.Name info = BranchRow.Name Demo.branchMid)
    by (eexists; vm_compute; split; reflexivity).
  destruct Hinfo as (info & Hl & Hname).
  refine (proj2 (free_eligible_ev_is_offered Demo.utc [Demo.branchMid]
                   [Demo.carE1] [Demo.tripE1] 1000 100
                   (DateString "2024-06-02") Demo.route Demo.branchMid info
                   "E1"%string Demo.carE1 _ _ Hname _ _ _ _ _ _ _) eq_refl).
  - left.
  - rewrite Hl. left.
  - vm_compute. left.
  - vm_compute. reflexivity.
  - left.
  - vm_compute. reflexivity.
  - reflexivity.
  - vm_compute. reflexivity.
  - intros (t & ts & Ht & _ & _ & Hts & _ & _ & Hd).
    apply list_elem_of_singleton in Ht as ->.
    vm_compute in Hts. injection Hts as <-.
    vm_compute in Hd. discriminate.
Defined.

(** X21, on two trip rows, swapped and one repeated. *)
Lemma trip_rows_order_irrelevant_run :
  getBestBranchWithAvailableEV Demo.utc [Demo.branchMid] [Demo.carE1]
    [Demo.tripE1; Demo.tripNoCar] 1000 100 (DateString "2024-06-01")
    Demo.route =
  getBestBranchWithAvailableEV Demo.utc [Demo.branchMid] [Demo.carE1]
    [Demo.tripNoCar; Demo.tripE1; Demo.tripE1] 1000 100
    (DateString "2024-06-01") Demo.route.
Proof.
  refine (proj2 (trip_rows_order_irrelevant Demo.utc [Demo.branchMid]
                   [Demo.carE1] [Demo.tripE1; Demo.tripNoCar]
                   [Demo.tripNoCar; Demo.tripE1; Demo.tripE1] 1000 100
                   (DateString "2024-06-01") Demo.route _)).
  intros t. rewrite !elem_of_cons. tauto.
Defined.

(** X20, at the middle point of the sample route. *)
Lemma distance_to_self_is_zero_run :
  getDistance Demo.utc (Point.mk 50.5 14.5) (Point.mk 50.5 14.5) = 0%float.
Proof.
  refine (proj1 (distance_to_self_is_zero Demo.utc (Point.mk 50.5 14.5)
                   eq_refl eq_refl _)).
  repeat split; vm_compute; reflexivity.
Defined.

End Runs.
